(** * Vote ledger of the forum-hub backend

    A shallow embedding of the two vote handlers of [src/index.js]
    ([POST /post-upvote/:id], lines 380-434, and [POST /post-downvote/:id],
    lines 437-490) and of the popularity listing
    ([GET /all-posts/sort-by-popularity], lines 501-520), together with the
    part of the document store they use.

    The handlers are [async] functions with two suspension points each: the
    [findOne] that reads the post and the [updateOne] that writes it.  They
    are embedded as a read step that yields a pending write, followed by the
    write against the collection as it is at that moment; running both steps
    back to back gives the sequential handler.

    The counters [upVotes] and [downVotes] are stored numbers, integers or
    doubles as the post was created with them; [$inc] and [$subtract]
    follow the arithmetic of the store on each. *)

From Stdlib Require Import ZArith Lia.
From stdpp Require Import base option list gmap strings sorting.

(** ** Values *)

(** The values of [req.body.userEmail] the model tells apart: absent
    ([undefined]), [null], or a string.  Numbers, booleans, arrays and
    objects, which a JSON body can also hold, are left out. *)
Inductive JsValue :=
| JsUndefined
| JsNull
| JsString (s : string).

(** What a stored vote record holds in its [userEmail] field. *)
Inductive BsonValue :=
| BsonNull
| BsonString (s : string).

#[global] Instance JsValue_eq_dec : EqDecision JsValue.
Proof. solve_decision. Defined.

#[global] Instance BsonValue_eq_dec : EqDecision BsonValue.
Proof. solve_decision. Defined.

(** The driver writes [undefined] as [null] (its [ignoreUndefined] option is
    left at its default by the [MongoClient] of line 27). *)
Definition serialize (v : JsValue) : BsonValue :=
  match v with
  | JsUndefined => BsonNull
  | JsNull => BsonNull
  | JsString s => BsonString s
  end.

Definition deserialize (b : BsonValue) : JsValue :=
  match b with
  | BsonNull => JsNull
  | BsonString s => JsString s
  end.

(** JavaScript's [===] on these values. *)
Definition strict_eq (a b : JsValue) : bool := bool_decide (a = b).

(** ** Documents *)

Abbreviation ObjectId := N.

(** An element of [votes]; both fields are taken to be present, as in every
    record the handlers push. *)
Record VoteRecord := {
  userEmail : BsonValue;
  voteType : string;
}.

(** A stored number whose value is an integer.  The driver writes a
    JavaScript integer of the int32 range as an int32 and any other number
    as a double; the store turns an int32 that overflows under [$inc] into
    an int64.  [BsonInt] stands for the two integer types, [BsonDouble n]
    for a double whose value is the integer [n].  Doubles with a fraction,
    infinities, NaN and values that are not numbers are left out. *)
Inductive BsonNumber :=
| BsonInt (n : Z)
| BsonDouble (n : Z).

Definition number_value (x : BsonNumber) : Z :=
  match x with
  | BsonInt n => n
  | BsonDouble n => n
  end.

(** The integer [z] rounded to the nearest double, ties to the even
    significand: integers up to [2 ^ 53] in magnitude are kept, larger
    ones keep their 53 leading bits. *)
Definition round_double (z : Z) : Z :=
  let a := Z.abs z in
  if (a <? 2 ^ 53)%Z then z
  else
    let e := (Z.log2 a - 52)%Z in
    let q := (a / 2 ^ e)%Z in
    let r := (a mod 2 ^ e)%Z in
    let half := (2 ^ (e - 1))%Z in
    let q' := if (r <? half)%Z then q
              else if (half <? r)%Z then (q + 1)%Z
              else if Z.even q then q else (q + 1)%Z in
    (Z.sgn z * (q' * 2 ^ e))%Z.

(** A post document.  [votes], [upVotes] and [downVotes] are [None] when the
    document has no such field ([/new-post] stores the request body as it
    comes); every other attribute is kept in [fields]. *)
Record Post := {
  votes : option (list VoteRecord);
  upVotes : option BsonNumber;
  downVotes : option BsonNumber;
  fields : gmap string BsonValue;
}.

Abbreviation Collection := (gmap ObjectId Post).

#[global] Instance VoteRecord_eq_dec : EqDecision VoteRecord.
Proof. solve_decision. Defined.

Definition set_votes (l : option (list VoteRecord)) (p : Post) : Post :=
  {| votes := l; upVotes := upVotes p; downVotes := downVotes p;
     fields := fields p |}.

Definition set_upVotes (n : option BsonNumber) (p : Post) : Post :=
  {| votes := votes p; upVotes := n; downVotes := downVotes p;
     fields := fields p |}.

Definition set_downVotes (n : option BsonNumber) (p : Post) : Post :=
  {| votes := votes p; upVotes := upVotes p; downVotes := n;
     fields := fields p |}.

(** The number a counter field reads as; [$inc] treats an absent field
    as 0. *)
Definition counter (field : option BsonNumber) : Z :=
  match field with
  | Some x => number_value x
  | None => 0%Z
  end.

(** ** The store: [findOne] and [updateOne] *)

(** The update operators the handlers use. *)
Inductive UpdateOperator :=
| Pull_votes (email : JsValue)                  (* $pull: { votes: { userEmail } } *)
| Push_votes (email : JsValue) (type : string)  (* $push: { votes: { userEmail, voteType } } *)
| Set_votes_voteType (type : string)            (* $set: { "votes.$.voteType": type } *)
| Inc_upVotes (n : Z)                           (* $inc: { upVotes: n } *)
| Inc_downVotes (n : Z).                        (* $inc: { downVotes: n } *)

(** A query [{ _id }] or [{ _id, "votes.userEmail": email }]. *)
Record Filter := {
  filter_id : ObjectId;
  filter_votes_userEmail : option JsValue;
}.

(** A stored record matches the query value [email]. *)
Definition matches_email (email : JsValue) (v : VoteRecord) : bool :=
  bool_decide (userEmail v = serialize email).

(** The positional [$]: the first array element the query matched. *)
Fixpoint set_first (email : JsValue) (type : string) (l : list VoteRecord)
  : list VoteRecord :=
  match l with
  | [] => []
  | v :: l' =>
      if matches_email email v
      then {| userEmail := userEmail v; voteType := type |} :: l'
      else v :: set_first email type l'
  end.

(** [$inc] by the int32 [k]: the new value of the field, or [None] when
    the store refuses the update.  An absent field is set to [k]; an
    integer is added to exactly, and the update fails when the sum leaves
    the int64 range; a double is added to in double arithmetic. *)
Definition inc (k : Z) (field : option BsonNumber) : option BsonNumber :=
  match field with
  | None => Some (BsonInt k)
  | Some (BsonInt n) =>
      if ((- 2 ^ 63 <=? n + k) && (n + k <? 2 ^ 63))%Z
      then Some (BsonInt (n + k))
      else None
  | Some (BsonDouble n) => Some (BsonDouble (round_double (n + k)))
  end.

#[global] Arguments inc : simpl never.

(** [$pull]: every element the condition matches goes; an absent array
    stays absent. *)
Definition pull (email : JsValue) (p : Post) : Post :=
  set_votes (List.filter (fun v => negb (matches_email email v)) <$> votes p) p.

(** [$push]: appends, creating the array when the field is absent. *)
Definition push (email : JsValue) (type : string) (p : Post) : Post :=
  set_votes
    (Some (default [] (votes p)
           ++ [{| userEmail := serialize email; voteType := type |}])) p.

(** [$set] through the positional [$]. *)
Definition set_positional (email : JsValue) (type : string) (p : Post) : Post :=
  set_votes (set_first email type <$> votes p) p.

(** One operator on a document; [None] when the store refuses it. *)
Definition apply_operator (f : Filter) (p : Post) (op : UpdateOperator)
  : option Post :=
  match op with
  | Pull_votes email => Some (pull email p)
  | Push_votes email type => Some (push email type p)
  | Set_votes_voteType type =>
      match filter_votes_userEmail f with
      | Some email => Some (set_positional email type p)
      | None => None
      end
  | Inc_upVotes n => (fun r => set_upVotes (Some r) p) <$> inc n (upVotes p)
  | Inc_downVotes n => (fun r => set_downVotes (Some r) p) <$> inc n (downVotes p)
  end.

(** All operators of an update, on one document: all of them or none. *)
Definition apply_update (f : Filter) (p : Post) (update : list UpdateOperator)
  : option Post :=
  foldl (fun acc op => acc ≫= fun q => apply_operator f q op) (Some p) update.

Definition filter_matches (f : Filter) (p : Post) : bool :=
  match filter_votes_userEmail f with
  | None => true
  | Some email => existsb (matches_email email) (default [] (votes p))
  end.

Definition findOne (id : ObjectId) (db : Collection) : option Post := db !! id.

(** One document, all operators of the update at once; [None] stands for
    the exception of an update the store refuses, which changes nothing. *)
Definition updateOne (f : Filter) (update : list UpdateOperator)
    (db : Collection) : option Collection :=
  match db !! filter_id f with
  | Some p =>
      if filter_matches f p
      then (fun p' => <[filter_id f := p']> db) <$> apply_update f p update
      else Some db
  | None => Some db
  end.

(** ** Responses *)

Record Response := {
  status : nat;
  body : list (string * string);
}.

(** [res.send(obj)] and [res.status(n).send(obj)]. *)
Definition send (obj : list (string * string)) : Response :=
  {| status := 200; body := obj |}.

Definition status_send (n : nat) (obj : list (string * string)) : Response :=
  {| status := n; body := obj |}.

Definition field (name : string) (obj : list (string * string)) : option string :=
  snd <$> List.find (fun kv => String.eqb (fst kv) name) obj.

(** ** A concrete [ObjectId] constructor

    [new ObjectId(id)] belongs to the driver.  The handlers below take it as
    a parameter: [None] when it throws.  [hexObjectId] accepts the
    24-character hexadecimal strings and is used for the worked examples. *)

Definition hex_digit (c : Ascii.ascii) : option N :=
  let n := Ascii.N_of_ascii c in
  if (48 <=? n)%N && (n <=? 57)%N then Some (n - 48)%N
  else if (97 <=? n)%N && (n <=? 102)%N then Some (n - 87)%N
  else if (65 <=? n)%N && (n <=? 70)%N then Some (n - 55)%N
  else None.

Fixpoint hex_value (acc : N) (s : string) : option N :=
  match s with
  | EmptyString => Some acc
  | String c s' =>
      match hex_digit c with
      | Some d => hex_value (16 * acc + d)%N s'
      | None => None
      end
  end.

Definition hexObjectId (s : string) : option ObjectId :=
  if Nat.eqb (String.length s) 24 then hex_value 0%N s else None.

(** ** The requested vote and the per-user state *)

Inductive VoteType := up | down.

Inductive VoteState := NoVote | Voted (t : VoteType).

#[global] Instance VoteType_eq_dec : EqDecision VoteType.
Proof. solve_decision. Defined.

#[global] Instance VoteState_eq_dec : EqDecision VoteState.
Proof. solve_decision. Defined.

Definition type_name (t : VoteType) : string :=
  match t with up => "up" | down => "down" end.

(** [post.votes?.find((vote) => vote.userEmail === userEmail)] *)
Definition existingVote (post : Post) (email : JsValue) : option VoteRecord :=
  votes post ≫= List.find (fun vote => strict_eq (deserialize (userEmail vote)) email).

(** The state a user is in on a post: [None] when the user's record holds a
    [voteType] other than "up" and "down". *)
Definition userState (post : Post) (email : JsValue) : option VoteState :=
  match existingVote post email with
  | None => Some NoVote
  | Some v =>
      if String.eqb (voteType v) "up" then Some (Voted up)
      else if String.eqb (voteType v) "down" then Some (Voted down)
      else None
  end.

(** The table of section 4.1 of the specification, row by row:
    the new state and the deltas of [upVotes] and [downVotes]. *)
Definition spec_table (s : VoteState) (requested : VoteType)
  : VoteState * (Z * Z) :=
  match s, requested with
  | NoVote, up => (Voted up, (1, 0))
  | NoVote, down => (Voted down, (0, 1))
  | Voted up, up => (NoVote, (-1, 0))
  | Voted up, down => (Voted down, (-1, 1))
  | Voted down, down => (NoVote, (0, -1))
  | Voted down, up => (Voted up, (1, -1))
  end%Z.

(** The status texts of the specification for the six rows. *)
Definition spec_message (s : VoteState) (requested : VoteType) : string :=
  match s, requested with
  | NoVote, up => "Upvote added"
  | NoVote, down => "Downvote added"
  | Voted up, up => "Upvote removed"
  | Voted down, down => "Downvote removed"
  | Voted down, up => "Vote switched to upvote"
  | Voted up, down => "Vote switched to downvote"
  end.

Definition count_type (type : string) (l : list VoteRecord) : Z :=
  Z.of_nat (length (List.filter (fun v => String.eqb (voteType v) type) l)).


(** ** [GET /all-posts/sort-by-popularity] *)

(** The value of a number that an aggregation computes. *)
Inductive Score :=
| NegInfinity
| Number (z : Z)
| PosInfinity.

(** A document as the pipeline returns it: the stored post and the added
    [votesCount]. *)
Record PostView := {
  view_id : ObjectId;
  view_post : Post;
  votesCount : option Score;
}.

(** An operand taken as a double. *)
Definition to_double (x : BsonNumber) : Z :=
  match x with
  | BsonInt n => round_double n
  | BsonDouble n => n
  end.

(** The result of a double operation whose exact value is [z]. *)
Definition double_result (z : Z) : Score :=
  let r := round_double z in
  if (2 ^ 1024 <=? r)%Z then PosInfinity
  else if (r <=? - 2 ^ 1024)%Z then NegInfinity
  else Number r.

(** [$subtract]: [null] as soon as an operand is missing; exact on two
    integers unless the difference leaves the int64 range; in double
    arithmetic otherwise. *)
Definition subtract (a b : option BsonNumber) : option Score :=
  match a, b with
  | Some (BsonInt m), Some (BsonInt n) =>
      if ((- 2 ^ 63 <=? m - n) && (m - n <? 2 ^ 63))%Z
      then Some (Number (m - n))
      else Some (double_result (round_double m - round_double n))
  | Some x, Some y => Some (double_result (to_double x - to_double y))
  | _, _ => None
  end.

(** [$addFields: { votesCount: { $subtract: ["$upVotes", "$downVotes"] } }] *)
Definition addFields_votesCount (d : ObjectId * Post) : PostView :=
  {| view_id := d.1; view_post := d.2;
     votesCount := subtract (upVotes d.2) (downVotes d.2) |}.

(** Where a computed value stands among the numbers. *)
Definition score_rank (s : Score) : Z * Z :=
  match s with
  | NegInfinity => (-1, 0)
  | Number z => (0, z)
  | PosInfinity => (1, 0)
  end%Z.

(** The order of [$sort: { votesCount: -1 }]: larger first, [null] after
    every number. *)
Definition score_ge (a b : option Score) : Prop :=
  match a, b with
  | _, None => True
  | None, Some _ => False
  | Some x, Some y =>
      ((score_rank y).1 < (score_rank x).1
       ∨ ((score_rank y).1 = (score_rank x).1
          ∧ (score_rank y).2 ≤ (score_rank x).2))%Z
  end.

Definition popular_first (a b : PostView) : Prop :=
  score_ge (votesCount a) (votesCount b).

#[global] Instance score_ge_dec a b : Decision (score_ge a b).
Proof. destruct a, b; simpl; apply _. Defined.

#[global] Instance popular_first_dec : RelDecision popular_first.
Proof. intros a b. unfold popular_first. apply _. Defined.

Definition sort_votesCount (l : list PostView) : list PostView :=
  merge_sort popular_first l.

(** The handler: the aggregation reads the collection and leaves it as it
    is. *)
Definition sort_by_popularity (db : Collection) : Collection * list PostView :=
  (db, sort_votesCount (addFields_votesCount <$> map_to_list db)).

(** ** Vocabulary of the properties *)

(** The test of [existingVote], named. *)
Definition js_matches (email : JsValue) (vote : VoteRecord) : bool :=
  strict_eq (deserialize (userEmail vote)) email.

(** The array of a post, empty when the field is absent. *)
Definition votes_list (p : Post) : list VoteRecord := default [] (votes p).

(** The array after a call by the user [e] in state [S]: a record appended,
    the user's records removed, or the user's record rewritten in place. *)
Definition next_votes (S : VoteState) (requested : VoteType) (e : string)
    (l : list VoteRecord) : list VoteRecord :=
  match S with
  | NoVote =>
      l ++ [{| userEmail := BsonString e; voteType := type_name requested |}]
  | Voted t =>
      if decide (t = requested)
      then List.filter (fun v => negb (matches_email (JsString e) v)) l
      else set_first (JsString e) (type_name requested) l
  end.

(** A counter field after an update that changes it by [k]: as it was
    when [k] is 0, after [$inc] by [k] otherwise; [None] when [$inc]
    fails. *)
Definition moved (k : Z) (field : option BsonNumber)
  : option (option BsonNumber) :=
  if (k =? 0)%Z then Some field else Some <$> inc k field.

(** The counter field can take [m] steps of 1 or -1 and count each of them:
    an integer stays within int64, a double stays among the integers that
    a double tells apart. *)
Definition room (m : Z) (field : option BsonNumber) : Prop :=
  match field with
  | None => (m < 2 ^ 63)%Z
  | Some (BsonInt n) => (Z.abs n + m < 2 ^ 63)%Z
  | Some (BsonDouble n) => (Z.abs n + m ≤ 2 ^ 53)%Z
  end.

(** The counter field takes the change [k] of a transition and counts it:
    there is no change, or there is room for one step. *)
Definition takes (k : Z) (field : option BsonNumber) : Prop :=
  k = 0%Z ∨ room 1 field.

(** [$inc] by 1 or -1 does not fail on the counter field: an integer stays
    within int64. *)
Definition fits (field : option BsonNumber) : Prop :=
  match field with
  | Some (BsonInt n) => (Z.abs n + 1 < 2 ^ 63)%Z
  | _ => True
  end.

(** The counter field counts each of [m] steps of 1 or -1 that it takes:
    an integer is added to exactly or the update fails; a double must stay
    among the integers that a double tells apart. *)
Definition lossless (m : Z) (field : option BsonNumber) : Prop :=
  match field with
  | Some (BsonDouble n) => (Z.abs n + m ≤ 2 ^ 53)%Z
  | _ => True
  end.


(** The field a vote type is counted in. *)
Definition stored_counter (t : VoteType) (p : Post) : option BsonNumber :=
  match t with
  | up => upVotes p
  | down => downVotes p
  end.

(** What one call that succeeds does to an existing post, for a user known
    by an e-mail address. *)
Record step_to (S : VoteState) (requested : VoteType) (e : string)
    (p p' : Post) : Prop := {
  step_state : userState p' (JsString e) = Some (spec_table S requested).1;
  step_upVotes :
    moved (spec_table S requested).2.1 (upVotes p) = Some (upVotes p');
  step_downVotes :
    moved (spec_table S requested).2.2 (downVotes p) = Some (downVotes p');
  step_votes : votes_list p' = next_votes S requested e (votes_list p);
  step_fields : fields p' = fields p;
  step_others : ∀ email', serialize email' ≠ BsonString e →
                  existingVote p' email' = existingVote p email';
}.

(** The post after a first vote, when the counter takes the increment. *)
Definition added (requested : VoteType) (email : JsValue) (p : Post)
  : option Post :=
  match requested with
  | up => (fun r => set_upVotes (Some r) (push email "up" p))
            <$> inc 1 (upVotes p)
  | down => (fun r => set_downVotes (Some r) (push email "down" p))
              <$> inc 1 (downVotes p)
  end.

Definition typed (l : list VoteRecord) : Prop :=
  Forall (fun v => voteType v = "up" ∨ voteType v = "down") l.

Definition well_formed (p : Post) : Prop :=
  NoDup (userEmail <$> votes_list p) ∧ typed (votes_list p).

(** The counters read as the numbers of records of their types, and count
    [m] more steps. *)
Definition counted (m : Z) (p : Post) : Prop :=
  counter (upVotes p) = count_type "up" (votes_list p)
  ∧ counter (downVotes p) = count_type "down" (votes_list p)
  ∧ lossless m (upVotes p)
  ∧ lossless m (downVotes p).


(** The caller of a call is known by an e-mail address. *)
Definition string_user (email : JsValue) : Prop := ∃ e, email = JsString e.

(** The state [S] of the user [e], read off the array. *)
Definition in_state (S : VoteState) (e : string) (l : list VoteRecord) : Prop :=
  match S with
  | NoVote => List.find (matches_email (JsString e)) l = None
  | Voted t =>
      ∃ v, List.find (matches_email (JsString e)) l = Some v
           ∧ voteType v = type_name t
  end.

Definition one_if (b : bool) : Z := if b then 1%Z else 0%Z.

(** ** The handlers *)

(** What a handler holds after its read: the reply, or the write still to
    be issued and the reply that follows it. *)
Inductive Pending :=
| Reply (r : Response)
| Write (f : Filter) (update : list UpdateOperator) (r : Response).

(** The write, and the reply after it; an exception of [updateOne] is
    caught by the handler's [catch]. *)
Definition complete (w : Pending) (db : Collection) : Collection * Response :=
  match w with
  | Reply r => (db, r)
  | Write f update r =>
      match updateOne f update db with
      | Some db' => (db', r)
      | None => (db, status_send 500 [("message", "Internal server error")])
      end
  end.

(** A call: the endpoint, [req.params.id] and [req.body.userEmail]. *)
Record Call := {
  call_type : VoteType;
  call_id : string;
  call_user : JsValue;
}.

(** A handler in flight: not started, suspended between its read and its
    write, or done.  Node runs one handler at a time and switches between
    them only at an [await]. *)
Inductive Thread :=
| Start (c : Call)
| Awaiting (w : Pending)
| Finished (r : Response).

(** ** Sample documents and calls *)

Definition post_id : string := "000000000000000000000001".
Definition other_id : string := "000000000000000000000002".
Definition malformed_id : string := "not-an-object-id".

Definition alice : string := "alice@forum.hub".
Definition bob : string := "bob@forum.hub".

Definition fresh_post : Post :=
  {| votes := Some []; upVotes := Some (BsonInt 0); downVotes := Some (BsonInt 0);
     fields := {[ "title" := BsonString "Hello" ]} |}.

Definition forum : Collection := {[ 1%N := fresh_post ]}.

(** A post on which alice has voted up. *)
Definition voted_post : Post :=
  {| votes := Some [{| userEmail := BsonString alice; voteType := "up" |}];
     upVotes := Some (BsonInt 1); downVotes := Some (BsonInt 0);
     fields := {[ "title" := BsonString "Hello" ]} |}.

Definition voted_forum : Collection := {[ 1%N := voted_post ]}.

(** A post stored without a [votes] field. *)
Definition bare_post : Post :=
  {| votes := None; upVotes := Some (BsonInt 0); downVotes := Some (BsonInt 0);
     fields := {[ "title" := BsonString "Hello" ]} |}.

Definition bare_forum : Collection := {[ 1%N := bare_post ]}.

(** A post whose [upVotes] is stored as the double [2 ^ 53]: the next
    integer is not a double. *)
Definition full_post : Post :=
  {| votes := Some []; upVotes := Some (BsonDouble (2 ^ 53));
     downVotes := Some (BsonInt 0);
     fields := {[ "title" := BsonString "Hello" ]} |}.

Definition full_forum : Collection := {[ 1%N := full_post ]}.

(** The same post stored without a [votes] field. *)
Definition full_bare_post : Post :=
  {| votes := None; upVotes := Some (BsonDouble (2 ^ 53));
     downVotes := Some (BsonInt 0);
     fields := {[ "title" := BsonString "Hello" ]} |}.

Definition full_bare_forum : Collection := {[ 1%N := full_bare_post ]}.


(** A post whose [upVotes] is the largest int64. *)
Definition last_post : Post :=
  {| votes := Some []; upVotes := Some (BsonInt (2 ^ 63 - 1));
     downVotes := Some (BsonInt 0);
     fields := {[ "title" := BsonString "Hello" ]} |}.

Definition call (t : VoteType) (user : string) : Call :=
  {| call_type := t; call_id := post_id; call_user := JsString user |}.

(** The scenario of section 8 of the specification. *)
Definition scenario : list Call :=
  [call up alice; call up alice; call down alice; call up bob; call down bob].

(** ** Further vocabulary *)

(** The other vote type. *)
Definition opposite (t : VoteType) : VoteType :=
  match t with up => down | down => up end.




(** ** Replies with values that are not strings *)

Inductive JsonValue :=
| JsonBool (b : bool)
| JsonString (s : string)
| JsonNumber (n : Z).

(** What [res.send] or [res.status(n).send] is given by the handlers that
    reply [{ success: ... }]. *)
Record JsonReply := {
  reply_status : nat;
  reply_body : list (string * JsonValue);
}.

Definition success : JsonReply :=
  {| reply_status := 200; reply_body := [("success", JsonBool true)] |}.

Definition internal_server_error : JsonReply :=
  {| reply_status := 500;
     reply_body := [("success", JsonBool false);
                    ("message", JsonString "Internal Server Error")] |}.

(** ** The users collection

    [src/index.js], lines 81-92 ([verifyAdmin]), 106-141
    ([PATCH /users/make-admin/]), 144-153 ([POST /new-user]) and 170-182
    ([PATCH /update-badge]); [src/unnamed/part_000], lines 155-165
    ([POST /new-user] of the later revision). *)

(** A user document.  [user_email] is its [email] field, null also when the
    field is absent (a query for null selects both); [role] and [badge] are
    [None] when the field is absent or is not a string. *)
Record User := {
  user_email : BsonValue;
  role : option string;
  badge : option string;
  profile : gmap string BsonValue;
}.

Definition set_role (r : string) (u : User) : User :=
  {| user_email := user_email u; role := Some r; badge := badge u;
     profile := profile u |}.

Definition set_badge (b : string) (u : User) : User :=
  {| user_email := user_email u; role := role u; badge := Some b;
     profile := profile u |}.

(** The query [{ email: q }]. *)
Definition email_is (q : JsValue) (u : User) : bool :=
  bool_decide (user_email u = serialize q).

(** [userCollection.findOne({ email })]: the first document, in the order
    of the collection, that the query selects. *)
Definition users_findOne (q : JsValue) (users : list User) : option User :=
  List.find (email_is q) users.

(** [userCollection.updateOne({ email }, { $set: ... })]: the first
    document the query selects is rewritten. *)
Fixpoint users_updateOne (q : JsValue) (f : User → User) (users : list User)
  : list User :=
  match users with
  | [] => []
  | u :: users' =>
      if email_is q u then f u :: users'
      else u :: users_updateOne q f users'
  end.

(** [user.role === "admin"] *)
Definition is_admin (u : User) : bool := bool_decide (role u = Some "admin").

(** What a middleware does: hand over to the next handler, reply, or throw. *)
Inductive Middleware :=
| Next
| Respond (r : Response)
| Throw.

(** [verifyAdmin]: [req.user.email] is looked up; reading [role] of a user
    that was not found throws. *)
Definition verifyAdmin (userEmail : JsValue) (users : list User) : Middleware :=
  match users_findOne userEmail users with
  | None => Throw
  | Some user =>
      if is_admin user then Next
      else Respond (status_send 401
                      [("message", "Access Denied! unauthorized user")])
  end.

(** [PATCH /users/make-admin/]: an admin becomes a user, anyone else an
    admin. *)
Definition make_admin (userEmail : JsValue) (users : list User)
  : list User * JsonReply :=
  match users_findOne userEmail users with
  | None =>
      (users, {| reply_status := 404;
                 reply_body := [("message", JsonString "User not found")] |})
  | Some user =>
      if is_admin user
      then (users_updateOne userEmail (set_role "user") users, success)
      else (users_updateOne userEmail (set_role "admin") users, success)
  end.

(** [POST /new-user] of [src/index.js]: the body is stored as it comes,
    unless a user with its [email] exists. *)
Definition new_user (userData : User) (users : list User)
  : list User * JsonReply :=
  match List.find (fun u => bool_decide (user_email u = user_email userData))
          users with
  | None => (users ++ [userData], success)
  | Some _ => (users, success)
  end.

(** [POST /new-user] of [src/unnamed/part_000]: the stored document is
    [{ ...userData, role: "user" }]. *)
Definition new_user_as_user (userData : User) (users : list User)
  : list User * JsonReply :=
  match List.find (fun u => bool_decide (user_email u = user_email userData))
          users with
  | None => (users ++ [set_role "user" userData], success)
  | Some _ => (users, success)
  end.

(** [PATCH /update-badge]. *)
Definition update_badge (userEmail : JsValue) (users : list User)
  : list User * JsonReply :=
  (users_updateOne userEmail (set_badge "Gold") users, success).

(** A request to one of the handlers that write to the users collection,
    of either revision. *)
Inductive UserRequest :=
| NewUser (userData : User)
| NewUserAsUser (userData : User)
| MakeAdmin (userEmail : JsValue)
| UpdateBadge (userEmail : JsValue).

Definition run_user_request (users : list User) (r : UserRequest) : list User :=
  match r with
  | NewUser d => (new_user d users).1
  | NewUserAsUser d => (new_user_as_user d users).1
  | MakeAdmin e => (make_admin e users).1
  | UpdateBadge e => (update_badge e users).1
  end.

Definition run_user_requests (rs : list UserRequest) (users : list User)
  : list User :=
  foldl run_user_request users rs.

(** ** Search terms

    [src/unnamed/part_000], lines 291-299 ([POST /search-term]) and 302-326
    ([GET /recent-search-terms]). *)

(** A stored search: the body's [searchTerm] (null also when absent) and
    the [createdAt] the handler adds, in milliseconds. *)
Record SearchTerm := {
  searchTerm : BsonValue;
  createdAt : Z;
}.

(** A document of the [$group] stage. *)
Record TermGroup := {
  _id : BsonValue;
  count : nat;
  latestCreatedAt : Z;
}.

(** [POST /search-term]: [now] is the value of [new Date()]. *)
Definition search_term (body : BsonValue) (now : Z) (terms : list SearchTerm)
  : list SearchTerm * JsonReply :=
  (terms ++ [{| searchTerm := body; createdAt := now |}], success).

(** One more document enters the [$group] stage: its group gets
    [$sum: 1] and [$max: "$createdAt"], or is created. *)
Fixpoint add_to_groups (d : SearchTerm) (groups : list TermGroup)
  : list TermGroup :=
  match groups with
  | [] => [{| _id := searchTerm d; count := 1; latestCreatedAt := createdAt d |}]
  | g :: groups' =>
      if bool_decide (_id g = searchTerm d)
      then {| _id := _id g; count := S (count g);
              latestCreatedAt := Z.max (latestCreatedAt g) (createdAt d) |}
           :: groups'
      else g :: add_to_groups d groups'
  end.

(** [$group: { _id: "$searchTerm", count: { $sum: 1 },
               latestCreatedAt: { $max: "$createdAt" } }] *)
Definition group_by_searchTerm (terms : list SearchTerm) : list TermGroup :=
  foldl (fun groups d => add_to_groups d groups) [] terms.

(** The order of [$sort: { count: -1, latestCreatedAt: -1 }]. *)
Definition more_searched (a b : TermGroup) : Prop :=
  count b < count a
  ∨ (count a = count b ∧ (latestCreatedAt b ≤ latestCreatedAt a)%Z).

#[global] Instance more_searched_dec : RelDecision more_searched.
Proof. intros a b. unfold more_searched. apply _. Defined.

(** [GET /recent-search-terms]: group, sort, [$limit: 3]. *)
Definition recent_search_terms (terms : list SearchTerm) : list TermGroup :=
  take 3 (merge_sort more_searched (group_by_searchTerm terms)).

(** How many stored searches carry the term [t]. *)
Definition times_searched (t : BsonValue) (terms : list SearchTerm) : nat :=
  length (List.filter (fun d => bool_decide (searchTerm d = t)) terms).

(** What the [$group] stage holds for the documents [terms]. *)
Definition groups_of (terms : list SearchTerm) (groups : list TermGroup) : Prop :=
  NoDup (_id <$> groups)
  ∧ (∀ g, g ∈ groups →
       count g = times_searched (_id g) terms
       ∧ (∃ d, d ∈ terms ∧ searchTerm d = _id g
               ∧ createdAt d = latestCreatedAt g)
       ∧ (∀ d, d ∈ terms → searchTerm d = _id g →
            (createdAt d ≤ latestCreatedAt g)%Z))
  ∧ (∀ d, d ∈ terms → searchTerm d ∈ _id <$> groups).

(** ** Sample users and searches *)

Definition root_user : User :=
  {| user_email := BsonString "root@forum.hub"; role := Some "admin";
     badge := None; profile := ∅ |}.

Definition alice_user : User :=
  {| user_email := BsonString alice; role := Some "user";
     badge := None; profile := ∅ |}.

(** A registration body that carries a role. *)
Definition mallory_body : User :=
  {| user_email := BsonString "mallory@forum.hub"; role := Some "admin";
     badge := None; profile := ∅ |}.

Definition sample_users : list User := [root_user; alice_user].

Definition searched (term : string) (at_ms : Z) : SearchTerm :=
  {| searchTerm := BsonString term; createdAt := at_ms |}.

Definition sample_searches : list SearchTerm :=
  [searched "rocq" 1; searched "lean" 2; searched "rocq" 3;
   searched "agda" 4; searched "isabelle" 5; searched "lean" 6].

(** ** Comments

    [src/index.js], lines 279-302 ([PATCH /report-comment/:id]), 305-315
    ([GET /all-reported-comments]), 318-343 ([PATCH /resolve-comment/:id]),
    346-358 ([DELETE /delete-comment/:id]) and 361-369
    ([GET /post-comments/:id]). *)

(** A comment document: the post it belongs to, the [createdAt] that
    [/new-comment] gives it (in milliseconds), and [feedbacks], [None] when
    the comment has no such field. *)
Record Comment := {
  postId : ObjectId;
  comment_createdAt : Z;
  feedbacks : option BsonValue;
  comment_fields : gmap string BsonValue;
}.

(** [$set: { feedbacks: b }] *)
Definition set_feedbacks (b : BsonValue) (c : Comment) : Comment :=
  {| postId := postId c; comment_createdAt := comment_createdAt c;
     feedbacks := Some b; comment_fields := comment_fields c |}.

(** The query [{ feedbacks: { $ne: "", $exists: true } }]. *)
Definition reported (c : Comment) : bool :=
  match feedbacks c with
  | Some b => negb (bool_decide (b = BsonString ""))
  | None => false
  end.

(** [GET /all-reported-comments] *)
Definition all_reported_comments (comments : gmap ObjectId Comment)
  : list (ObjectId * Comment) :=
  List.filter (fun d => reported d.2) (map_to_list comments).

(** The order of [.sort({ createdAt: -1 })] on comments. *)
Definition newest_first (a b : ObjectId * Comment) : Prop :=
  (comment_createdAt b.2 ≤ comment_createdAt a.2)%Z.

#[global] Instance newest_first_dec : RelDecision newest_first.
Proof. intros a b. unfold newest_first. apply _. Defined.

(** ** The token check

    [src/index.js], lines 65-79 ([verifyToken]). *)

(** What [jwt.verify] returns; the handlers read its [email]. *)
Record Payload := {
  payload_email : JsValue;
}.

(** What [verifyToken] does with a request: it sets [req.user] and hands
    over, or it replies. *)
Inductive TokenCheck :=
| Verified (user : Payload)
| Denied (r : Response).

(** What a route behind [verifyToken] and [verifyAdmin] ends with: a reply
    of a middleware, an exception, or the reply of its handler. *)
Inductive RouteResult :=
| Refused (r : Response)
| Thrown
| Served (r : JsonReply).

Definition sample_comments : gmap ObjectId Comment :=
  {[ 10%N := {| postId := 1%N; comment_createdAt := 100;
                feedbacks := None; comment_fields := ∅ |};
     11%N := {| postId := 1%N; comment_createdAt := 200;
                feedbacks := Some (BsonString "spam"); comment_fields := ∅ |};
     12%N := {| postId := 2%N; comment_createdAt := 300;
                feedbacks := Some (BsonString ""); comment_fields := ∅ |} ]}.

Definition comment_id : string := "00000000000000000000000a".

(** A stand-in for [jwt.verify] in the worked examples: two tokens are
    accepted. *)
Definition sample_jwt_verify (tok : string) : option Payload :=
  if String.eqb tok "root-token"
  then Some {| payload_email := JsString "root@forum.hub" |}
  else if String.eqb tok "alice-token"
  then Some {| payload_email := JsString alice |}
  else None.

Section Handlers.

(** [new ObjectId(id)]; [None] stands for the exception it throws. *)
Variable ObjectId_new : string → option ObjectId.

(** [app.post("/post-upvote/:id", ...)] up to its [updateOne]. *)
Definition post_upvote_read (id : string) (userEmail : JsValue)
    (db : Collection) : Pending :=
  match ObjectId_new id with
  | None => Reply (status_send 500 [("message", "Internal server error")])
  | Some oid =>
      match findOne oid db with
      | None => Reply (status_send 404 [("message", "Post not found")])
      | Some post =>
          match existingVote post userEmail with
          | Some existing =>
              if String.eqb (voteType existing) "up" then
                Write {| filter_id := oid; filter_votes_userEmail := None |}
                      [Pull_votes userEmail; Inc_upVotes (-1)]
                      (send [("message", "Upvote removed")])
              else
                Write {| filter_id := oid;
                         filter_votes_userEmail := Some userEmail |}
                      [Set_votes_voteType "up"; Inc_upVotes 1; Inc_downVotes (-1)]
                      (send [("message", "Vote switched to upvote")])
          | None =>
              Write {| filter_id := oid; filter_votes_userEmail := None |}
                    [Push_votes userEmail "up"; Inc_upVotes 1]
                    (send [("message", "Upvote added")])
          end
      end
  end.

(** [app.post("/post-downvote/:id", ...)] up to its [updateOne]. *)
Definition post_downvote_read (id : string) (userEmail : JsValue)
    (db : Collection) : Pending :=
  match ObjectId_new id with
  | None => Reply (status_send 500 [("message", "Internal server error")])
  | Some oid =>
      match findOne oid db with
      | None => Reply (status_send 404 [("message", "Post not found")])
      | Some post =>
          match existingVote post userEmail with
          | Some existing =>
              if String.eqb (voteType existing) "down" then
                Write {| filter_id := oid; filter_votes_userEmail := None |}
                      [Pull_votes userEmail; Inc_downVotes (-1)]
                      (send [("message", "Downvote removed")])
              else
                Write {| filter_id := oid;
                         filter_votes_userEmail := Some userEmail |}
                      [Set_votes_voteType "down"; Inc_downVotes 1; Inc_upVotes (-1)]
                      (send [("message", "Vote switched to downvote")])
          | None =>
              Write {| filter_id := oid; filter_votes_userEmail := None |}
                    [Push_votes userEmail "down"; Inc_downVotes 1]
                    (send [("message", "Downvote added")])
          end
      end
  end.

Definition post_upvote (id : string) (userEmail : JsValue)
    (db : Collection) : Collection * Response :=
  complete (post_upvote_read id userEmail db) db.

Definition post_downvote (id : string) (userEmail : JsValue)
    (db : Collection) : Collection * Response :=
  complete (post_downvote_read id userEmail db) db.

(** [castVote(postId, userId, requestedType)]: the endpoint of the
    requested type. *)
Definition castVote_read (requested : VoteType) :=
  match requested with
  | up => post_upvote_read
  | down => post_downvote_read
  end.

Definition castVote (requested : VoteType) (id : string) (userEmail : JsValue)
    (db : Collection) : Collection * Response :=
  match requested with
  | up => post_upvote id userEmail db
  | down => post_downvote id userEmail db
  end.

Definition run_call (db : Collection) (c : Call) : Collection :=
  (castVote (call_type c) (call_id c) (call_user c) db).1.

Definition run_calls (calls : list Call) (db : Collection) : Collection :=
  foldl run_call db calls.

(** One step of a handler: its read, then its write. *)
Definition step_thread (th : Thread) (db : Collection) : Thread * Collection :=
  match th with
  | Start c =>
      (Awaiting (castVote_read (call_type c) (call_id c) (call_user c) db), db)
  | Awaiting w => let '(db', r) := complete w db in (Finished r, db')
  | Finished r => (Finished r, db)
  end.

(** A schedule names, step by step, the handler that runs next:
    [true] the first, [false] the second. *)
Fixpoint run_schedule (sched : list bool) (t1 t2 : Thread) (db : Collection)
  : Thread * Thread * Collection :=
  match sched with
  | [] => (t1, t2, db)
  | true :: sched' =>
      let '(t1', db') := step_thread t1 db in run_schedule sched' t1' t2 db'
  | false :: sched' =>
      let '(t2', db') := step_thread t2 db in run_schedule sched' t1 t2' db'
  end.

(** The two calls one after the other: replies and final collection. *)
Definition in_order (c c' : Call) (db : Collection)
  : Response * Response * Collection :=
  let '(db1, r) := castVote (call_type c) (call_id c) (call_user c) db in
  let '(db2, r') := castVote (call_type c') (call_id c') (call_user c') db1 in
  (r, r', db2).

(** [app.delete("/delete-post/:id", ...)] of [src/index.js], lines 553-565:
    [deleteOne] by [_id]; the constructor's exception is caught. *)
Definition delete_post (id : string) (db : Collection) : Collection * JsonReply :=
  match ObjectId_new id with
  | None => (db, internal_server_error)
  | Some oid => (delete oid db, success)
  end.

(** [app.patch("/report-comment/:id", ...)]: [updateOne] by [_id] with
    [$set: { feedbacks }]; nothing happens when no comment has the id. *)
Definition report_comment (id : string) (feedbacks : JsValue)
    (comments : gmap ObjectId Comment) : gmap ObjectId Comment * JsonReply :=
  match ObjectId_new id with
  | None => (comments, internal_server_error)
  | Some oid => (alter (set_feedbacks (serialize feedbacks)) oid comments, success)
  end.

(** [app.patch("/resolve-comment/:id", ...)]: [$set: { feedbacks: "" }]. *)
Definition resolve_comment (id : string) (comments : gmap ObjectId Comment)
  : gmap ObjectId Comment * JsonReply :=
  match ObjectId_new id with
  | None => (comments, internal_server_error)
  | Some oid => (alter (set_feedbacks (BsonString "")) oid comments, success)
  end.

(** [app.delete("/delete-comment/:id", ...)] of [src/index.js]. *)
Definition delete_comment (id : string) (comments : gmap ObjectId Comment)
  : gmap ObjectId Comment * JsonReply :=
  match ObjectId_new id with
  | None => (comments, internal_server_error)
  | Some oid => (delete oid comments, success)
  end.

(** [app.get("/post-comments/:id", ...)]: the constructor is called outside
    any [try]; [None] stands for the exception that leaves the handler. *)
Definition post_comments (id : string) (comments : gmap ObjectId Comment)
  : option (list (ObjectId * Comment)) :=
  match ObjectId_new id with
  | None => None
  | Some pid =>
      Some (merge_sort newest_first
              (List.filter (fun d => bool_decide (postId d.2 = pid))
                 (map_to_list comments)))
  end.

(** [jwt.verify(token, process.env.JWT_SECRET)]; [None] stands for the
    exception it throws. *)
Variable jwt_verify : string → option Payload.

(** [verifyToken]: [token] is [req.cookies?.token]. *)
Definition verifyToken (token : option string) : TokenCheck :=
  match token with
  | None =>
      Denied (status_send 401 [("message", "Access Denied! unauthorized user")])
  | Some tok =>
      if String.eqb tok ""
      then Denied (status_send 401
                     [("message", "Access Denied! unauthorized user")])
      else match jwt_verify tok with
           | Some verified => Verified verified
           | None => Denied (status_send 400 [("message", "Invalid Token")])
           end
  end.

(** The route [PATCH /users/make-admin/]: [verifyToken], [verifyAdmin],
    then the handler with [req.query.email]. *)
Definition make_admin_route (token : option string) (email : JsValue)
    (users : list User) : list User * RouteResult :=
  match verifyToken token with
  | Denied r => (users, Refused r)
  | Verified user =>
      match verifyAdmin (payload_email user) users with
      | Respond r => (users, Refused r)
      | Throw => (users, Thrown)
      | Next => let '(users', r) := make_admin email users in (users', Served r)
      end
  end.

(** The results of [$inc] that the context knows, put in their place. *)
Ltac inc_rewrite :=
  repeat match goal with H : inc _ _ = _ |- _ => rewrite H end.

Ltac inc_known := unfold moved; simpl; inc_rewrite.



(** * Properties *)

(** ** Counters *)

Lemma round_double_exact z : (Z.abs z ≤ 2 ^ 53)%Z → round_double z = z.
Proof.
  intros H. unfold round_double.
  destruct (Z.ltb_spec (Z.abs z) (2 ^ 53)) as [Hlt|Hge]; [done|].
  assert (Ha : Z.abs z = (2 ^ 53)%Z) by lia.
  rewrite Ha. vm_compute Z.log2.
  change (2 ^ 53 / 2 ^ (53 - 52))%Z with (2 ^ 52)%Z.
  change (2 ^ 53 mod 2 ^ (53 - 52))%Z with 0%Z.
  change (2 ^ (53 - 52 - 1))%Z with 1%Z. simpl.
  lia.
Qed.

Lemma room_le m m' field : (m' ≤ m)%Z → room m field → room m' field.
Proof. destruct field as [[n|n]|]; simpl; lia. Qed.

Lemma inc_room k m field :
  (k = 1 ∨ k = -1)%Z →
  (1 ≤ m)%Z →
  room m field →
  ∃ r, inc k field = Some r
       ∧ number_value r = (counter field + k)%Z
       ∧ room (m - 1) (Some r).
Proof.
  intros Hk Hm Hroom. destruct field as [[n|n]|]; unfold inc; simpl in *.
  - assert (E : ((- 2 ^ 63 <=? n + k) && (n + k <? 2 ^ 63))%Z = true).
    { apply andb_true_intro. split; [apply Z.leb_le|apply Z.ltb_lt]; lia. }
    rewrite E. eexists. split; [done|]. simpl. lia.
  - eexists. split; [done|]. simpl.
    rewrite round_double_exact by lia. lia.
  - eexists. split; [done|]. simpl. lia.
Qed.

Lemma spec_table_delta S requested :
  ((spec_table S requested).2.1 = 0 ∨ (spec_table S requested).2.1 = 1
   ∨ (spec_table S requested).2.1 = -1)%Z
  ∧ ((spec_table S requested).2.2 = 0 ∨ (spec_table S requested).2.2 = 1
     ∨ (spec_table S requested).2.2 = -1)%Z.
Proof. destruct S as [|[]], requested; simpl; auto. Qed.

Lemma moved_room k m field :
  (k = 0 ∨ k = 1 ∨ k = -1)%Z →
  (1 ≤ m)%Z →
  room m field →
  ∃ field', moved k field = Some field'
            ∧ counter field' = (counter field + k)%Z
            ∧ room (m - 1) field'
            ∧ (is_Some field → is_Some field').
Proof.
  intros [-> | Hk] Hm Hroom; unfold moved.
  - exists field. simpl. split; [done|]. split; [lia|].
    split; [|done]. eapply room_le; [|done]. lia.
  - destruct (inc_room k m field Hk Hm Hroom) as (r & -> & Hr & Hroom').
    replace (k =? 0)%Z with false by (destruct Hk; by subst).
    exists (Some r). simpl. eauto.
Qed.

Lemma moved_takes k field :
  (k = 0 ∨ k = 1 ∨ k = -1)%Z →
  takes k field →
  ∃ field', moved k field = Some field'
            ∧ counter field' = (counter field + k)%Z.
Proof.
  intros Hk [-> | Hroom].
  - exists field. split; [done|]. lia.
  - destruct (moved_room k 1 field Hk ltac:(lia) Hroom) as (f & E & C & _).
    by exists f.
Qed.

Lemma fits_moved k field :
  (k = 0 ∨ k = 1 ∨ k = -1)%Z → fits field → is_Some (moved k field).
Proof.
  intros Hk Hfits. unfold moved. destruct (k =? 0)%Z; [by eexists|].
  destruct field as [[n|n]|]; unfold inc; simpl in *; try by eexists.
  replace ((- 2 ^ 63 <=? n + k) && (n + k <? 2 ^ 63))%Z with true;
    [by eexists|].
  symmetry. apply andb_true_intro.
  split; [apply Z.leb_le|apply Z.ltb_lt]; lia.
Qed.

Lemma lossless_le m m' field : (m' ≤ m)%Z → lossless m field → lossless m' field.
Proof. destruct field as [[n|n]|]; simpl; lia. Qed.

Lemma moved_lossless k m field field' :
  (k = 0 ∨ k = 1 ∨ k = -1)%Z →
  (1 ≤ m)%Z →
  lossless m field →
  moved k field = Some field' →
  counter field' = (counter field + k)%Z ∧ lossless (m - 1) field'.
Proof.
  intros Hk Hm Hl. unfold moved. destruct (Z.eqb_spec k 0) as [->|Hk0].
  - intros [= <-]. split; [lia|]. eapply lossless_le; [|done]. lia.
  - destruct field as [[n|n]|]; unfold inc; simpl in *.
    + destruct (_ && _); [|done]. intros [= <-]. by simpl.
    + intros [= <-]. simpl. rewrite round_double_exact by lia. lia.
    + intros [= <-]. simpl. split; [lia|done].
Qed.

(** ** Matching a vote record *)

Lemma serialize_deserialize b : serialize (deserialize b) = b.
Proof. by destruct b. Qed.

Lemma js_matches_userEmail email v :
  js_matches email v = true → userEmail v = serialize email.
Proof.
  unfold js_matches, strict_eq. intros H%bool_decide_eq_true.
  by rewrite <- H, serialize_deserialize.
Qed.

(** For a value that is present, [===] in the handler and the query of the
    store select the same records. *)
Lemma js_matches_mongo email v :
  email ≠ JsUndefined → js_matches email v = matches_email email v.
Proof.
  intros Hdef. unfold js_matches, matches_email, strict_eq.
  destruct v as [b ty]; simpl.
  destruct email as [| |s], b as [|s']; simpl; try done;
    apply bool_decide_ext; split; congruence.
Qed.

Lemma js_matches_other email email' v :
  serialize email' ≠ serialize email →
  js_matches email' v = true → matches_email email v = false.
Proof.
  intros Hne H%js_matches_userEmail. unfold matches_email.
  apply bool_decide_eq_false. congruence.
Qed.

Lemma find_ext_eq {A} (f g : A → bool) l :
  (∀ x, f x = g x) → List.find f l = List.find g l.
Proof. intros E. induction l as [|x l IH]; simpl; [done|]. by rewrite E, IH. Qed.

Lemma existingVote_find p email :
  existingVote p email = votes p ≫= List.find (js_matches email).
Proof. done. Qed.

Lemma existingVote_mongo p email :
  email ≠ JsUndefined →
  existingVote p email = votes p ≫= List.find (matches_email email).
Proof.
  intros Hdef. rewrite existingVote_find. destruct (votes p) as [l|]; simpl; [|done].
  apply find_ext_eq. intros v. by apply js_matches_mongo.
Qed.

(** ** The array operators, seen through [find] *)

Section Find.
Context {A : Type} (m : A → bool).

Lemma find_app_None l r :
  List.find m l = None → List.find m (l ++ r) = List.find m r.
Proof. induction l as [|x l IH]; simpl; [done|]. destruct (m x); [done|auto]. Qed.

Lemma find_app_Some l r v :
  List.find m l = Some v → List.find m (l ++ r) = Some v.
Proof. induction l as [|x l IH]; simpl; [done|]. destruct (m x); [done|auto]. Qed.

Lemma find_pull l : List.find m (List.filter (fun x => negb (m x)) l) = None.
Proof.
  induction l as [|x l IH]; simpl; [done|].
  destruct (m x) eqn:E; simpl; [done|]. by rewrite E.
Qed.

Lemma find_Some_existsb l v : List.find m l = Some v → existsb m l = true.
Proof.
  induction l as [|x l IH]; simpl; [done|].
  destruct (m x); simpl; [done|auto].
Qed.

Lemma find_Some_true l v : List.find m l = Some v → m v = true.
Proof.
  induction l as [|x l IH]; simpl; [done|].
  destruct (m x) eqn:E; [congruence|auto].
Qed.

Lemma find_None_filter l :
  List.find m l = None → List.filter (fun x => negb (m x)) l = l.
Proof.
  induction l as [|x l IH]; simpl; [done|].
  destruct (m x); simpl; [done|]. intros H. by rewrite IH.
Qed.

End Find.

Lemma find_set_first email type l v :
  List.find (matches_email email) l = Some v →
  List.find (matches_email email) (set_first email type l)
  = Some {| userEmail := userEmail v; voteType := type |}.
Proof.
  induction l as [|x l IH]; simpl; [done|].
  destruct (matches_email email x) eqn:E; simpl.
  - intros [= <-]. unfold matches_email in *. simpl. by rewrite E.
  - rewrite E. auto.
Qed.

Lemma set_first_userEmail email type l :
  userEmail <$> set_first email type l = userEmail <$> l.
Proof.
  induction l as [|x l IH]; csimpl; [done|].
  destruct (matches_email email x); csimpl; [done|]. by rewrite IH.
Qed.

Lemma set_first_length email type l :
  length (set_first email type l) = length l.
Proof.
  induction l as [|x l IH]; simpl; [done|].
  destruct (matches_email email x); simpl; [done|]. by rewrite IH.
Qed.

(** The records of another user are out of reach of the three array
    operators. *)
Lemma find_other_pull email email' l :
  serialize email' ≠ serialize email →
  List.find (js_matches email')
    (List.filter (fun v => negb (matches_email email v)) l)
  = List.find (js_matches email') l.
Proof.
  intros Hne. induction l as [|x l IH]; simpl; [done|].
  destruct (js_matches email' x) eqn:E.
  - rewrite (js_matches_other _ _ _ Hne E). simpl. by rewrite E.
  - destruct (matches_email email x); simpl; [done|]. by rewrite E.
Qed.

Lemma find_other_set_first email email' type l :
  serialize email' ≠ serialize email →
  List.find (js_matches email') (set_first email type l)
  = List.find (js_matches email') l.
Proof.
  intros Hne. induction l as [|x l IH]; simpl; [done|].
  destruct (matches_email email x) eqn:Ex; simpl.
  - destruct (js_matches email' x) eqn:E.
    + by rewrite (js_matches_other _ _ _ Hne E) in Ex.
    + unfold js_matches in *. simpl. by rewrite E.
  - destruct (js_matches email' x); [done|auto].
Qed.

Lemma find_other_push email email' type l :
  serialize email' ≠ serialize email →
  List.find (js_matches email')
    (l ++ [{| userEmail := serialize email; voteType := type |}])
  = List.find (js_matches email') l.
Proof.
  intros Hne. destruct (List.find (js_matches email') l) as [v|] eqn:E.
  - by apply find_app_Some.
  - rewrite find_app_None by done. simpl.
    destruct (js_matches email' _) eqn:E'; [|done].
    apply js_matches_userEmail in E'. simpl in E'. congruence.
Qed.

(** ** The three array updates, seen through [existingVote] *)

Lemma existingVote_pull email p :
  email ≠ JsUndefined → existingVote (pull email p) email = None.
Proof.
  intros Hdef. rewrite existingVote_mongo by done. simpl.
  destruct (votes p) as [l|]; simpl; [|done]. apply find_pull.
Qed.

Lemma existingVote_pull_other email email' p :
  serialize email' ≠ serialize email →
  existingVote (pull email p) email' = existingVote p email'.
Proof.
  intros Hne. rewrite !existingVote_find. simpl.
  destruct (votes p) as [l|]; simpl; [|done]. by apply find_other_pull.
Qed.

Lemma existingVote_set_positional email type p v :
  email ≠ JsUndefined →
  existingVote p email = Some v →
  existingVote (set_positional email type p) email
  = Some {| userEmail := userEmail v; voteType := type |}.
Proof.
  intros Hdef. rewrite !existingVote_mongo by done. simpl.
  destruct (votes p) as [l|]; simpl; [|done]. apply find_set_first.
Qed.

Lemma existingVote_set_positional_other email email' type p :
  serialize email' ≠ serialize email →
  existingVote (set_positional email type p) email' = existingVote p email'.
Proof.
  intros Hne. rewrite !existingVote_find. simpl.
  destruct (votes p) as [l|]; simpl; [|done]. by apply find_other_set_first.
Qed.

Lemma existingVote_push email type p :
  email ≠ JsUndefined →
  existingVote p email = None →
  existingVote (push email type p) email
  = Some {| userEmail := serialize email; voteType := type |}.
Proof.
  intros Hdef. rewrite !existingVote_mongo by done. simpl.
  assert (Hm : matches_email email
                 {| userEmail := serialize email; voteType := type |} = true)
    by (by apply bool_decide_eq_true).
  destruct (votes p) as [l|]; simpl.
  - intros Hnone. rewrite find_app_None by done. simpl. by rewrite Hm.
  - intros _. by rewrite Hm.
Qed.

Lemma existingVote_push_other email email' type p :
  serialize email' ≠ serialize email →
  existingVote (push email type p) email' = existingVote p email'.
Proof.
  intros Hne. rewrite !existingVote_find. simpl.
  destruct (votes p) as [l|]; simpl.
  - by apply find_other_push.
  - destruct (js_matches email' _) eqn:E'; [|done].
    apply js_matches_userEmail in E'. simpl in E'. congruence.
Qed.

Lemma existingVote_filter_matches oid email p v :
  email ≠ JsUndefined →
  existingVote p email = Some v →
  filter_matches {| filter_id := oid; filter_votes_userEmail := Some email |} p
  = true.
Proof.
  intros Hdef. rewrite existingVote_mongo by done.
  unfold filter_matches. simpl. destruct (votes p) as [l|]; simpl; [|done].
  apply find_Some_existsb.
Qed.

(** ** One call on an existing post *)

Lemma castVote_complete requested id email db :
  castVote requested id email db
  = complete (castVote_read requested id email db) db.
Proof. by destruct requested. Qed.

Lemma userState_existingVote p p' email email' :
  existingVote p' email' = existingVote p email →
  userState p' email' = userState p email.
Proof. unfold userState. by intros ->. Qed.

Lemma userState_None p email :
  existingVote p email = None → userState p email = Some NoVote.
Proof. unfold userState. by intros ->. Qed.

Lemma userState_Some p email b type :
  existingVote p email = Some {| userEmail := b; voteType := type_name type |} →
  userState p email = Some (Voted type).
Proof. unfold userState. intros ->. by destruct type. Qed.

Lemma existingVote_set_upVotes n p email :
  existingVote (set_upVotes n p) email = existingVote p email.
Proof. done. Qed.

Lemma existingVote_set_downVotes n p email :
  existingVote (set_downVotes n p) email = existingVote p email.
Proof. done. Qed.

Lemma votes_list_pull email p :
  votes_list (pull email p)
  = List.filter (fun v => negb (matches_email email v)) (votes_list p).
Proof. unfold votes_list. simpl. by destruct (votes p). Qed.

Lemma votes_list_push email type p :
  votes_list (push email type p)
  = votes_list p ++ [{| userEmail := serialize email; voteType := type |}].
Proof. done. Qed.

Lemma votes_list_set_positional email type p :
  votes_list (set_positional email type p)
  = set_first email type (votes_list p).
Proof. unfold votes_list. simpl. by destruct (votes p). Qed.

Lemma votes_list_set_upVotes n p : votes_list (set_upVotes n p) = votes_list p.
Proof. done. Qed.

Lemma votes_list_set_downVotes n p : votes_list (set_downVotes n p) = votes_list p.
Proof. done. Qed.

(** A call by a user in state [S] on an existing post: when both counters
    take their changes the call follows the table, and when one does not
    the call is answered 500 and nothing is written. *)
Lemma castVote_outcome requested id oid e db p S :
  ObjectId_new id = Some oid →
  db !! oid = Some p →
  userState p (JsString e) = Some S →
  match moved (spec_table S requested).2.1 (upVotes p),
        moved (spec_table S requested).2.2 (downVotes p) with
  | Some _, Some _ =>
      ∃ p',
        castVote requested id (JsString e) db
        = (<[oid := p']> db, send [("message", spec_message S requested)])
        ∧ step_to S requested e p p'
  | _, _ =>
      castVote requested id (JsString e) db
      = (db, status_send 500 [("message", "Internal server error")])
  end.
Proof.
  intros Hid Hp HS.
  unfold userState in HS.
  assert (Hdef : JsString e ≠ JsUndefined) by done.
  destruct requested;
    unfold castVote, post_upvote, post_downvote, post_upvote_read,
      post_downvote_read, findOne; rewrite Hid, Hp;
    (destruct (existingVote p (JsString e)) as [v|] eqn:Ev;
     [ destruct (String.eqb (voteType v) "up") eqn:Eup;
       [| destruct (String.eqb (voteType v) "down") eqn:Edown; [|done] ];
       try (apply String.eqb_eq in Eup; rewrite Eup);
       try (apply String.eqb_eq in Edown; rewrite Edown); simpl | ]);
    injection HS as <-; unfold complete, updateOne, apply_update, moved;
    simpl; rewrite Hp;
    rewrite ?(existingVote_filter_matches _ _ _ _ Hdef Ev); simpl;
    repeat (match goal with
            | |- context [inc ?k ?f] => destruct (inc k f) as [?r|] eqn:?E
            end; simpl);
    try done;
    (eexists; split; [reflexivity|]);
    (split; simpl;
     [ unfold userState | by inc_known | by inc_known | | done
     | intros email' Hne ]);
    repeat (rewrite existingVote_set_upVotes
            || rewrite existingVote_set_downVotes
            || rewrite votes_list_set_upVotes
            || rewrite votes_list_set_downVotes);
    first
      [ by rewrite existingVote_pull
      | by rewrite (existingVote_set_positional _ _ _ _ Hdef Ev)
      | by rewrite existingVote_push
      | by apply existingVote_pull_other
      | by apply existingVote_set_positional_other
      | by apply existingVote_push_other
      | by apply votes_list_pull
      | by apply votes_list_push
      | by apply votes_list_set_positional ].
Qed.

(** With room for one step in both counters the call follows the table. *)
Lemma castVote_step requested id oid e db p S :
  ObjectId_new id = Some oid →
  db !! oid = Some p →
  userState p (JsString e) = Some S →
  room 1 (upVotes p) →
  room 1 (downVotes p) →
  ∃ p',
    castVote requested id (JsString e) db
    = (<[oid := p']> db, send [("message", spec_message S requested)])
    ∧ step_to S requested e p p'.
Proof.
  intros Hid Hp HS Hup Hdown.
  pose proof (castVote_outcome requested _ _ _ _ _ _ Hid Hp HS) as H.
  destruct (spec_table_delta S requested) as [D1 D2].
  destruct (moved_room _ 1 _ D1 ltac:(lia) Hup) as (u & Eu & _).
  destruct (moved_room _ 1 _ D2 ltac:(lia) Hdown) as (d & Ed & _).
  by rewrite Eu, Ed in H.
Qed.

(** The counters after a step that had room for it. *)
Lemma step_counters S requested e p p' m :
  step_to S requested e p p' →
  (1 ≤ m)%Z →
  room m (upVotes p) →
  room m (downVotes p) →
  counter (upVotes p') = (counter (upVotes p) + (spec_table S requested).2.1)%Z
  ∧ counter (downVotes p')
    = (counter (downVotes p) + (spec_table S requested).2.2)%Z
  ∧ room (m - 1) (upVotes p')
  ∧ room (m - 1) (downVotes p').
Proof.
  intros Hstep Hm Hup Hdown.
  destruct (spec_table_delta S requested) as [D1 D2].
  destruct (moved_room _ m _ D1 Hm Hup) as (u & Eu & Cu & Ru & _).
  destruct (moved_room _ m _ D2 Hm Hdown) as (d & Ed & Cd & Rd & _).
  rewrite (step_upVotes _ _ _ _ _ Hstep) in Eu. injection Eu as <-.
  rewrite (step_downVotes _ _ _ _ _ Hstep) in Ed. by injection Ed as <-.
Qed.

(** ** The paths that write nothing *)

Lemma castVote_malformed requested id email db :
  ObjectId_new id = None →
  castVote requested id email db
  = (db, status_send 500 [("message", "Internal server error")]).
Proof.
  intros Hid. destruct requested;
    unfold castVote, post_upvote, post_downvote, post_upvote_read,
      post_downvote_read; by rewrite Hid.
Qed.

Lemma castVote_not_found requested id oid email db :
  ObjectId_new id = Some oid →
  db !! oid = None →
  castVote requested id email db
  = (db, status_send 404 [("message", "Post not found")]).
Proof.
  intros Hid Hp. destruct requested;
    unfold castVote, post_upvote, post_downvote, post_upvote_read,
      post_downvote_read, findOne; by rewrite Hid, Hp.
Qed.

(** ** A first vote, whatever [userEmail] is *)

Lemma castVote_added requested id oid email db p :
  ObjectId_new id = Some oid →
  db !! oid = Some p →
  existingVote p email = None →
  castVote requested id email db
  = match added requested email p with
    | Some p' =>
        (<[oid := p']> db, send [("message", spec_message NoVote requested)])
    | None => (db, status_send 500 [("message", "Internal server error")])
    end.
Proof.
  intros Hid Hp Hnone. destruct requested;
    unfold castVote, post_upvote, post_downvote, post_upvote_read,
      post_downvote_read, findOne; rewrite Hid, Hp, Hnone;
    unfold complete, updateOne, apply_update, added; simpl; rewrite Hp;
    simpl; by destruct (inc 1 _).
Qed.

Lemma added_room requested email p m :
  (1 ≤ m)%Z →
  room m (stored_counter requested p) →
  ∃ p', added requested email p = Some p'
        ∧ votes p'
          = Some (votes_list p
                  ++ [{| userEmail := serialize email;
                         voteType := type_name requested |}])
        ∧ counter (stored_counter requested p')
          = (counter (stored_counter requested p) + 1)%Z
        ∧ is_Some (stored_counter requested p')
        ∧ room (m - 1) (stored_counter requested p')
        ∧ stored_counter (opposite requested) p'
          = stored_counter (opposite requested) p
        ∧ fields p' = fields p.
Proof.
  intros Hm Hroom.
  destruct (inc_room 1 m _ ltac:(by left) Hm Hroom) as (r & E & Hr & Hr').
  destruct requested; simpl in *; unfold added; rewrite E; simpl;
    (eexists; split; [done|]); simpl; rewrite Hr; eauto 10.
Qed.

(** No stored record reads as [undefined]. *)
Lemma existingVote_undefined p : existingVote p JsUndefined = None.
Proof.
  unfold existingVote. destruct (votes p) as [l|]; simpl; [|done].
  induction l as [|[b ty] l IH]; simpl; [done|]. by destruct b.
Qed.

Lemma existingVote_no_votes p email : votes p = None → existingVote p email = None.
Proof. unfold existingVote. by intros ->. Qed.

(** ** Counting records *)

Lemma count_type_nil type : count_type type [] = 0%Z.
Proof. done. Qed.

Lemma count_type_cons type x l :
  count_type type (x :: l)
  = (one_if (String.eqb (voteType x) type) + count_type type l)%Z.
Proof.
  unfold count_type. simpl. destruct (String.eqb (voteType x) type); simpl; lia.
Qed.

Lemma count_type_app type l r :
  count_type type (l ++ r) = (count_type type l + count_type type r)%Z.
Proof.
  induction l as [|x l IH]; simpl; [by rewrite count_type_nil|].
  rewrite !count_type_cons, IH. lia.
Qed.

Lemma count_type_nonneg type l : (0 ≤ count_type type l)%Z.
Proof. unfold count_type. lia. Qed.

Lemma find_matches_None email l :
  List.find (matches_email email) l = None ↔ serialize email ∉ userEmail <$> l.
Proof.
  induction l as [|x l IH]; csimpl.
  - split; [intros _; apply not_elem_of_nil | done].
  - rewrite not_elem_of_cons, <- IH. unfold matches_email at 1.
    case_bool_decide as E; split; try done; intros [? ?]; [congruence|done].
Qed.

Lemma count_type_pull type e l v :
  NoDup (userEmail <$> l) →
  List.find (matches_email (JsString e)) l = Some v →
  count_type type (List.filter (fun x => negb (matches_email (JsString e) x)) l)
  = (count_type type l - one_if (String.eqb (voteType v) type))%Z.
Proof.
  induction l as [|x l IH]; csimpl; [done|].
  intros [Hx Hl]%NoDup_cons.
  destruct (matches_email (JsString e) x) eqn:E; simpl.
  - intros [= ->]. rewrite count_type_cons.
    apply bool_decide_eq_true in E. rewrite E in Hx.
    apply (find_matches_None (JsString e)) in Hx.
    rewrite (find_None_filter _ _ Hx). lia.
  - intros Hv. rewrite !count_type_cons, IH by done. lia.
Qed.

Lemma count_type_set_first type e new l v :
  List.find (matches_email (JsString e)) l = Some v →
  count_type type (set_first (JsString e) new l)
  = (count_type type l - one_if (String.eqb (voteType v) type)
     + one_if (String.eqb new type))%Z.
Proof.
  induction l as [|x l IH]; simpl; [done|].
  destruct (matches_email (JsString e) x) eqn:E; simpl.
  - intros [= ->]. rewrite !count_type_cons. simpl. lia.
  - intros Hv. rewrite !count_type_cons, IH by done. lia.
Qed.

Lemma NoDup_pull email l :
  NoDup (userEmail <$> l) →
  NoDup (userEmail <$> List.filter (fun x => negb (matches_email email x)) l).
Proof.
  induction l as [|x l IH]; csimpl; [done|].
  intros [Hx Hl]%NoDup_cons.
  destruct (negb (matches_email email x)); csimpl; [|auto].
  apply NoDup_cons. split; [|auto].
  intros Hin. apply Hx. apply list_elem_of_fmap in Hin as (y & -> & Hy).
  apply list_elem_of_fmap. exists y. split; [done|].
  apply list_elem_of_In, filter_In in Hy as [Hy _]. by apply list_elem_of_In.
Qed.

Lemma Forall_pull {P : VoteRecord → Prop} email l :
  Forall P l → Forall P (List.filter (fun x => negb (matches_email email x)) l).
Proof.
  induction 1 as [|x l Hx Hl IH]; simpl; [done|].
  destruct (negb (matches_email email x)); auto.
Qed.

Lemma Forall_set_first (P : VoteRecord → Prop) email type l :
  (∀ b, P {| userEmail := b; voteType := type |}) →
  Forall P l → Forall P (set_first email type l).
Proof.
  intros Hnew. induction 1 as [|x l Hx Hl IH]; simpl; [done|].
  destruct (matches_email email x); auto.
Qed.

Lemma existingVote_votes_list p email :
  existingVote p email = List.find (js_matches email) (votes_list p).
Proof. unfold existingVote, votes_list. by destruct (votes p). Qed.

Lemma userState_in_state p e S :
  userState p (JsString e) = Some S → in_state S e (votes_list p).
Proof.
  unfold userState. rewrite existingVote_votes_list.
  rewrite (find_ext_eq _ (matches_email (JsString e)))
    by (intros v; by apply js_matches_mongo).
  destruct (List.find _ _) as [v|] eqn:Ev.
  - destruct (String.eqb (voteType v) "up") eqn:Eup.
    + intros [= <-]. exists v. by apply String.eqb_eq in Eup.
    + destruct (String.eqb (voteType v) "down") eqn:Edown; [|done].
      intros [= <-]. exists v. by apply String.eqb_eq in Edown.
  - by intros [= <-].
Qed.

Lemma userState_well_formed p e :
  well_formed p → is_Some (userState p (JsString e)).
Proof.
  intros [_ Hty]. unfold userState. rewrite existingVote_votes_list.
  destruct (List.find _ _) as [v|] eqn:Ev; [|by eexists].
  apply find_some in Ev as [Hin _]. apply list_elem_of_In in Hin.
  unfold typed in Hty. rewrite Forall_forall in Hty.
  destruct (Hty _ Hin) as [-> | ->]; by eexists.
Qed.

Lemma count_type_next_votes S requested e l :
  NoDup (userEmail <$> l) →
  in_state S e l →
  count_type "up" (next_votes S requested e l)
  = (count_type "up" l + (spec_table S requested).2.1)%Z
  ∧ count_type "down" (next_votes S requested e l)
    = (count_type "down" l + (spec_table S requested).2.2)%Z.
Proof.
  intros Hnd HS. destruct S as [|t]; simpl in *.
  - rewrite !count_type_app, !count_type_cons, !count_type_nil.
    by destruct requested; simpl; split; lia.
  - destruct HS as (v & Hv & Hty). case_decide as Et.
    + subst t. rewrite !(count_type_pull _ _ _ _ Hnd Hv), Hty.
      by destruct requested; simpl; split; lia.
    + rewrite !(count_type_set_first _ _ _ _ _ Hv), Hty.
      by destruct t, requested; simpl; split; (done || lia).
Qed.

Lemma well_formed_next_votes S requested e l :
  in_state S e l →
  NoDup (userEmail <$> l) →
  Forall (fun v => voteType v = "up" ∨ voteType v = "down") l →
  NoDup (userEmail <$> next_votes S requested e l)
  ∧ Forall (fun v => voteType v = "up" ∨ voteType v = "down")
      (next_votes S requested e l).
Proof.
  intros HS Hnd Hty. destruct S as [|t]; simpl in *.
  - split.
    + rewrite fmap_app. apply NoDup_app. split; [done|]. split.
      * intros b Hb ->%list_elem_of_singleton.
        by apply (find_matches_None (JsString e)) in HS.
      * apply NoDup_singleton.
    + apply Forall_app. split; [done|]. apply Forall_singleton.
      destruct requested; auto.
  - case_decide.
    + split; [by apply NoDup_pull | by apply Forall_pull].
    + split; [by rewrite set_first_userEmail|].
      apply Forall_set_first; [|done]. intros b. simpl. destruct requested; auto.
Qed.



(** ** A call leaves every other post alone *)

Lemma complete_other f update r db oid :
  filter_id f ≠ oid → (complete (Write f update r) db).1 !! oid = db !! oid.
Proof.
  intros Hne. unfold complete, updateOne.
  destruct (db !! filter_id f); [|done].
  destruct (filter_matches f p); [|done].
  destruct (apply_update f p update); [|done]. simpl.
  by rewrite lookup_insert_ne.
Qed.

Lemma castVote_other requested id oid' email db oid :
  ObjectId_new id = Some oid' →
  oid' ≠ oid →
  (castVote requested id email db).1 !! oid = db !! oid.
Proof.
  intros Hid Hne. destruct requested;
    unfold castVote, post_upvote, post_downvote, post_upvote_read,
      post_downvote_read, findOne; rewrite Hid;
    (destruct (db !! oid') as [q|]; [|done]);
    (destruct (existingVote q email) as [v|];
     [destruct (String.eqb (voteType v) _)|]);
    by apply complete_other.
Qed.

(** ** What a call does to the array, whatever [userEmail] is *)

Lemma castVote_votes requested id oid email db p :
  ObjectId_new id = Some oid →
  db !! oid = Some p →
  ∃ p',
    (castVote requested id email db).1 !! oid = Some p'
    ∧ fields p' = fields p
    ∧ (votes_list p' = votes_list p
       ∨ (existingVote p email = None
          ∧ votes_list p'
            = votes_list p
              ++ [{| userEmail := serialize email;
                     voteType := type_name requested |}])
       ∨ votes_list p'
         = List.filter (fun v => negb (matches_email email v)) (votes_list p)
       ∨ votes_list p' = set_first email (type_name requested) (votes_list p)).
Proof.
  intros Hid Hp. destruct requested;
    unfold castVote, post_upvote, post_downvote, post_upvote_read,
      post_downvote_read, findOne; rewrite Hid, Hp;
    (destruct (existingVote p email) as [v|] eqn:Ev;
     [destruct (String.eqb (voteType v) _)|]);
    unfold complete, updateOne, apply_update; cbn [filter_id fst];
    rewrite Hp;
    destruct (filter_matches _ _);
    cbn [foldl apply_operator filter_votes_userEmail mbind option_bind];
    repeat (match goal with
            | |- context [inc ?k ?f] => destruct (inc k f) as [?r|]
            end;
            cbn [fmap option_fmap option_map mbind option_bind]);
    cbn [fst]; rewrite ?lookup_insert_eq, ?Hp;
    (eexists; split; [reflexivity|]); (split; [reflexivity|]);
    repeat (rewrite votes_list_set_upVotes || rewrite votes_list_set_downVotes);
    rewrite ?votes_list_pull, ?votes_list_push, ?votes_list_set_positional;
    auto.
Qed.






(** ** Sequences of calls *)

Lemma step_well_formed S requested e p p' :
  well_formed p →
  userState p (JsString e) = Some S →
  step_to S requested e p p' →
  well_formed p'.
Proof.
  intros [Hnd Hty] HS Hstep. unfold well_formed.
  rewrite (step_votes _ _ _ _ _ Hstep).
  apply well_formed_next_votes; [by apply userState_in_state|done..].
Qed.

Lemma step_counted S requested e p p' m :
  well_formed p →
  (1 ≤ m)%Z →
  counted m p →
  userState p (JsString e) = Some S →
  step_to S requested e p p' →
  counted (m - 1) p'.
Proof.
  intros [Hnd Hty] Hm (Hup & Hdown & Lup & Ldown) HS Hstep.
  destruct (count_type_next_votes S requested e (votes_list p) Hnd)
    as [Cup Cdown]; [by apply userState_in_state|].
  destruct (spec_table_delta S requested) as [D1 D2].
  destruct (moved_lossless _ m _ _ D1 Hm Lup (step_upVotes _ _ _ _ _ Hstep))
    as [Eup Lup'].
  destruct (moved_lossless _ m _ _ D2 Hm Ldown (step_downVotes _ _ _ _ _ Hstep))
    as [Edown Ldown'].
  unfold counted. rewrite (step_votes _ _ _ _ _ Hstep), Cup, Cdown.
  by rewrite Eup, Edown, Hup, Hdown.
Qed.

Lemma counted_le m m' p : (m' ≤ m)%Z → counted m p → counted m' p.
Proof.
  intros Hm (Hup & Hdown & Lup & Ldown).
  repeat split; try done; by eapply lossless_le.
Qed.

Lemma run_call_post db c oid p m :
  db !! oid = Some p →
  well_formed p →
  string_user (call_user c) →
  (1 ≤ m)%Z →
  ∃ p', run_call db c !! oid = Some p'
        ∧ well_formed p'
        ∧ (counted m p → counted (m - 1) p').
Proof.
  intros Hp Hwf [e He] Hm. unfold run_call. rewrite He.
  assert (Hsame : ∃ p', Some p = Some p' ∧ well_formed p'
                        ∧ (counted m p → counted (m - 1) p')).
  { exists p. split; [done|]. split; [done|]. apply counted_le. lia. }
  destruct (ObjectId_new (call_id c)) as [oid'|] eqn:Hid.
  - destruct (decide (oid' = oid)) as [->|Hne].
    + destruct (userState_well_formed p e Hwf) as [S HS].
      pose proof (castVote_outcome (call_type c) _ _ _ _ _ _ Hid Hp HS) as H.
      destruct (moved _ (upVotes p)); [destruct (moved _ (downVotes p))|];
        try (rewrite H; simpl; by rewrite Hp).
      destruct H as (p' & -> & Hstep).
      exists p'. simpl. rewrite lookup_insert_eq.
      split; [done|]. split; [by eapply step_well_formed|].
      intros; by eapply step_counted.
    + by rewrite (castVote_other _ _ _ _ _ _ Hid Hne), Hp.
  - rewrite castVote_malformed by done. simpl. by rewrite Hp.
Qed.

Lemma run_calls_post calls db oid p :
  db !! oid = Some p →
  well_formed p →
  Forall (fun c => string_user (call_user c)) calls →
  ∃ p', run_calls calls db !! oid = Some p'
        ∧ well_formed p'
        ∧ (counted (Z.of_nat (length calls)) p → counted 0 p').
Proof.
  intros Hp Hwf Hcalls. revert db p Hp Hwf.
  induction Hcalls as [|c calls Hc Hcalls IH]; intros db p Hp Hwf.
  - by exists p.
  - destruct (run_call_post db c oid p (Z.of_nat (length (c :: calls))) Hp Hwf Hc)
      as (p1 & Hp1 & Hwf1 & Hc1); [simpl; lia|].
    destruct (IH _ _ Hp1 Hwf1) as (p' & Hp' & Hwf' & Hc').
    exists p'. split; [done|]. split; [done|].
    intros H. apply Hc'. apply Hc1 in H.
    replace (Z.of_nat (length (c :: calls)) - 1)%Z
      with (Z.of_nat (length calls)) in H
      by (simpl; lia).
    done.
Qed.



(** ** Two handlers in flight *)

(** The read looks at nothing but the caller's own record. *)
Lemma castVote_read_congr requested id oid email db1 db2 p1 p2 :
  ObjectId_new id = Some oid →
  db1 !! oid = Some p1 →
  db2 !! oid = Some p2 →
  existingVote p1 email = existingVote p2 email →
  castVote_read requested id email db1 = castVote_read requested id email db2.
Proof.
  intros Hid H1 H2 E. destruct requested;
    unfold castVote_read, post_upvote_read, post_downvote_read, findOne;
    by rewrite Hid, H1, H2, E.
Qed.

Lemma interleavings sched :
  sched ≡ₚ [true; true; false; false] →
  sched ∈ [ [true; true; false; false]; [true; false; true; false];
            [true; false; false; true]; [false; true; true; false];
            [false; true; false; true]; [false; false; true; true] ].
Proof.
  intros Hperm.
  pose proof (Permutation_length Hperm) as Hlen.
  pose proof (proj1 (Permutation_count_occ Bool.bool_dec _ _) Hperm true) as Hcount.
  destruct sched as [|a [|b [|c [|d [|? ?]]]]]; try done.
  destruct a, b, c, d; try done; set_solver.
Qed.

(** A call leaves the record of every other user, on every post, as it
    was. *)
Lemma castVote_others requested id email email' db oid p :
  db !! oid = Some p →
  serialize email' ≠ serialize email →
  ∃ p',
    (castVote requested id email db).1 !! oid = Some p'
    ∧ existingVote p' email' = existingVote p email'.
Proof.
  intros Hp Hne. destruct (ObjectId_new id) as [oid'|] eqn:Hid.
  - destruct (decide (oid' = oid)) as [->|Hoid].
    + destruct (castVote_votes requested id oid email db p Hid Hp)
        as (p' & Hp' & _ & [E | [[_ E] | [E | E] ] ]);
        exists p'; (split; [done|]); rewrite !existingVote_votes_list, E.
      * done.
      * by apply find_other_push.
      * by apply find_other_pull.
      * by apply find_other_set_first.
    + exists p. by rewrite (castVote_other _ _ _ _ _ _ Hid Hoid).
  - exists p. by rewrite castVote_malformed.
Qed.

Lemma two_calls c1 c2 e1 e2 db oid p S1 S2 :
  ObjectId_new (call_id c1) = Some oid →
  ObjectId_new (call_id c2) = Some oid →
  db !! oid = Some p →
  call_user c1 = JsString e1 →
  call_user c2 = JsString e2 →
  e1 ≠ e2 →
  userState p (JsString e1) = Some S1 →
  userState p (JsString e2) = Some S2 →
  room 2 (upVotes p) →
  room 2 (downVotes p) →
  ∃ p',
    in_order c1 c2 db
    = (send [("message", spec_message S1 (call_type c1))],
       send [("message", spec_message S2 (call_type c2))],
       <[oid := p']> db)
    ∧ counter (upVotes p')
      = (counter (upVotes p) + (spec_table S1 (call_type c1)).2.1
         + (spec_table S2 (call_type c2)).2.1)%Z
    ∧ counter (downVotes p')
      = (counter (downVotes p) + (spec_table S1 (call_type c1)).2.2
         + (spec_table S2 (call_type c2)).2.2)%Z.
Proof.
  intros Hid1 Hid2 Hp He1 He2 Hne HS1 HS2 Hup Hdown. unfold in_order.
  rewrite He1, He2.
  destruct (castVote_step (call_type c1) _ _ _ _ _ _ Hid1 Hp HS1)
    as (p1 & -> & Hstep1); [by eapply room_le; [|done]..|].
  destruct (step_counters _ _ _ _ _ 2 Hstep1 ltac:(lia) Hup Hdown)
    as (U1 & D1 & Hup1 & Hdown1).
  assert (HS2' : userState p1 (JsString e2) = Some S2).
  { rewrite <- HS2. apply userState_existingVote.
    apply (step_others _ _ _ _ _ Hstep1). simpl. congruence. }
  destruct (castVote_step (call_type c2) _ _ _ (<[oid := p1]> db) _ _ Hid2
              (lookup_insert_eq _ _ _) HS2' Hup1 Hdown1) as (p2 & -> & Hstep2).
  destruct (step_counters _ _ _ _ _ 1 Hstep2 ltac:(lia) Hup1 Hdown1)
    as (U2 & D2 & _).
  exists p2. rewrite insert_insert_eq. split; [done|].
  by rewrite U2, D2, U1, D1.
Qed.

(** A write issued after the other handler's write is the write the
    sequential handler would issue then. *)
Lemma deferred_write requested id oid email db p db' p' :
  ObjectId_new id = Some oid →
  db !! oid = Some p →
  db' !! oid = Some p' →
  existingVote p' email = existingVote p email →
  complete (castVote_read requested id email db) db'
  = castVote requested id email db'.
Proof.
  intros Hid Hp Hp' E. rewrite castVote_complete.
  by rewrite (castVote_read_congr _ _ _ _ db db' p p' Hid Hp Hp').
Qed.

(** Two handlers of callers that differ, in flight on one post: every
    interleaving gives what one of the two orders gives. *)
Lemma schedule_serial sched c1 c2 db oid p :
  ObjectId_new (call_id c1) = Some oid →
  ObjectId_new (call_id c2) = Some oid →
  db !! oid = Some p →
  serialize (call_user c1) ≠ serialize (call_user c2) →
  sched ≡ₚ [true; true; false; false] →
  ∃ r1 r2 db',
    run_schedule sched (Start c1) (Start c2) db = (Finished r1, Finished r2, db')
    ∧ (in_order c1 c2 db = (r1, r2, db') ∨ in_order c2 c1 db = (r2, r1, db')).
Proof.
  intros Hid1 Hid2 Hp Hne Hsched%interleavings.
  destruct (castVote_others (call_type c1) (call_id c1) (call_user c1)
              (call_user c2) db oid p Hp) as (p1 & Hp1 & O1); [congruence|].
  destruct (castVote_others (call_type c2) (call_id c2) (call_user c2)
              (call_user c1) db oid p Hp) as (p2 & Hp2 & O2); [congruence|].
  destruct (castVote (call_type c1) (call_id c1) (call_user c1) db)
    as [db1 r1] eqn:E1.
  destruct (castVote (call_type c2) (call_id c2) (call_user c2) db)
    as [db2 r2] eqn:E2.
  simpl in Hp1, Hp2.
  pose proof (deferred_write (call_type c2) _ _ _ db p db1 p1
                Hid2 Hp Hp1 O1) as W2.
  pose proof (deferred_write (call_type c1) _ _ _ db p db2 p2
                Hid1 Hp Hp2 O2) as W1.
  destruct (castVote (call_type c2) (call_id c2) (call_user c2) db1)
    as [db12 r12] eqn:E12.
  destruct (castVote (call_type c1) (call_id c1) (call_user c1) db2)
    as [db21 r21] eqn:E21.
  unfold in_order. rewrite E1, E2, E12, E21.
  repeat (apply elem_of_cons in Hsched as [-> | Hsched]);
    [ .. | by apply elem_of_nil in Hsched ];
    cbn [run_schedule step_thread];
    rewrite <- ?castVote_complete, ?E1, ?E2, ?W1, ?W2;
    rewrite <- ?castVote_complete, ?E12, ?E21;
    eauto 10.
Qed.

(** ** The popularity listing *)

#[global] Instance popular_first_total : Total popular_first.
Proof.
  intros a b. unfold popular_first, score_ge.
  destruct (votesCount a) as [ [] |], (votesCount b) as [ [] |]; simpl;
    auto; lia.
Qed.

#[global] Instance popular_first_trans : Transitive popular_first.
Proof.
  intros a b c. unfold popular_first, score_ge.
  destruct (votesCount a) as [ [] |], (votesCount b) as [ [] |],
    (votesCount c) as [ [] |]; simpl; try done; lia.
Qed.








(** * The claims *)

(** C1, as amended: on an existing post, for a user in state none, up or
    down and a requested type up or down, where each counter that the
    transition changes has room for one step (an integer of magnitude
    below [2 ^ 63 - 1], a double of integer value of magnitude below
    [2 ^ 53], or an absent counter, which reads as 0), [castVote] replies
    200, rewrites that post only, and the user's new state and the changes
    of [upVotes] and [downVotes] are those of the row of the table of
    section 4.1; [castVote] being a function, no other outcome occurs. *)
Theorem castVote_transition_table requested id oid e db p S :
  ObjectId_new id = Some oid →
  db !! oid = Some p →
  userState p (JsString e) = Some S →
  takes (spec_table S requested).2.1 (upVotes p) →
  takes (spec_table S requested).2.2 (downVotes p) →
  ∃ p',
    (castVote requested id (JsString e) db).1 = <[oid := p']> db
    ∧ status (castVote requested id (JsString e) db).2 = 200
    ∧ userState p' (JsString e) = Some (spec_table S requested).1
    ∧ counter (upVotes p')
      = (counter (upVotes p) + (spec_table S requested).2.1)%Z
    ∧ counter (downVotes p')
      = (counter (downVotes p) + (spec_table S requested).2.2)%Z.
Proof.
  intros Hid Hp HS Hup Hdown.
  pose proof (castVote_outcome requested _ _ _ _ _ _ Hid Hp HS) as H.
  destruct (spec_table_delta S requested) as [D1 D2].
  destruct (moved_takes _ _ D1 Hup) as (u & Eu & Cu).
  destruct (moved_takes _ _ D2 Hdown) as (d & Ed & Cd).
  rewrite Eu, Ed in H. destruct H as (p' & -> & Hstep).
  rewrite (step_upVotes _ _ _ _ _ Hstep) in Eu. injection Eu as <-.
  rewrite (step_downVotes _ _ _ _ _ Hstep) in Ed. injection Ed as <-.
  exists p'. split; [done|]. split; [done|].
  split; [by destruct Hstep|done].
Qed.

(** C2, as amended: starting from a post with no votes and
    [upVotes = downVotes = 0], after any sequence of calls that run one
    after another (to this post or to others), each with a [userEmail] that
    is a string, [upVotes] is the number of records of type "up",
    [downVotes] the number of records of type "down", and neither is
    negative; a counter stored as a double counts that far for sequences of
    at most [2 ^ 53] calls. *)
Theorem counters_match_votes calls db oid p0 :
  db !! oid = Some p0 →
  votes_list p0 = [] →
  counter (upVotes p0) = 0%Z →
  counter (downVotes p0) = 0%Z →
  lossless (Z.of_nat (length calls)) (upVotes p0) →
  lossless (Z.of_nat (length calls)) (downVotes p0) →
  Forall (fun c => string_user (call_user c)) calls →
  ∃ p,
    run_calls calls db !! oid = Some p
    ∧ counter (upVotes p) = count_type "up" (votes_list p)
    ∧ counter (downVotes p) = count_type "down" (votes_list p)
    ∧ (0 ≤ counter (upVotes p))%Z
    ∧ (0 ≤ counter (downVotes p))%Z.
Proof.
  intros Hp Hvotes Hup Hdown Lup Ldown Hcalls.
  assert (Hwf : well_formed p0).
  { unfold well_formed. rewrite Hvotes.
    split; [apply NoDup_nil_2 | apply Forall_nil_2]. }
  assert (Hc : counted (Z.of_nat (length calls)) p0).
  { unfold counted. by rewrite Hvotes, Hup, Hdown. }
  destruct (run_calls_post calls db oid p0 Hp Hwf Hcalls) as (p & Hfinal & _ & Hcp).
  destruct (Hcp Hc) as (Eup & Edown & _).
  exists p. rewrite Eup, Edown.
  repeat split; try done; apply count_type_nonneg.
Qed.

(** C3, as amended: for counters with room for two steps, two consecutive
    identical calls by a user restore both counters and leave the user in
    state none when the user started in state none; when the user started
    with the requested type they restore both counters and leave the user
    with that type; when the user started with the other type they leave
    the user in state none with the other type's counter one lower and the
    requested type's counter as it was.  Counters are read as numbers, an
    absent one as 0. *)
Theorem castVote_twice requested id oid e db p S :
  ObjectId_new id = Some oid →
  db !! oid = Some p →
  userState p (JsString e) = Some S →
  room 2 (upVotes p) →
  room 2 (downVotes p) →
  ∃ p2,
    (castVote requested id (JsString e)
       (castVote requested id (JsString e) db).1).1 = <[oid := p2]> db
    ∧ (S = NoVote →
         userState p2 (JsString e) = Some NoVote
         ∧ counter (upVotes p2) = counter (upVotes p)
         ∧ counter (downVotes p2) = counter (downVotes p))
    ∧ (S = Voted requested →
         userState p2 (JsString e) = Some (Voted requested)
         ∧ counter (upVotes p2) = counter (upVotes p)
         ∧ counter (downVotes p2) = counter (downVotes p))
    ∧ (S = Voted up → requested = down →
         userState p2 (JsString e) = Some NoVote
         ∧ counter (upVotes p2) = (counter (upVotes p) - 1)%Z
         ∧ counter (downVotes p2) = counter (downVotes p))
    ∧ (S = Voted down → requested = up →
         userState p2 (JsString e) = Some NoVote
         ∧ counter (upVotes p2) = counter (upVotes p)
         ∧ counter (downVotes p2) = (counter (downVotes p) - 1)%Z).
Proof.
  intros Hid Hp HS Hup Hdown.
  destruct (castVote_step requested _ _ _ _ _ _ Hid Hp HS)
    as (p1 & E1 & Hstep1); [by eapply room_le; [|done]..|].
  destruct (step_counters _ _ _ _ _ 2 Hstep1 ltac:(lia) Hup Hdown)
    as (U1 & D1 & Hup1 & Hdown1).
  destruct (castVote_step requested _ _ _ (<[oid := p1]> db) _ _ Hid
              (lookup_insert_eq _ _ _) (step_state _ _ _ _ _ Hstep1)
              Hup1 Hdown1)
    as (p2 & E2 & Hstep2).
  destruct (step_counters _ _ _ _ _ 1 Hstep2 ltac:(lia) Hup1 Hdown1)
    as (U2 & D2 & _).
  exists p2. rewrite E1. simpl. rewrite E2. simpl.
  rewrite insert_insert_eq. split; [done|].
  rewrite (step_state _ _ _ _ _ Hstep2), U2, D2, U1, D1.
  repeat split; intros; subst; try destruct requested; simpl; try done; lia.
Qed.

(** C4: for an id that is well formed and names no stored post, [castVote]
    (either endpoint, whatever the body) replies 404 with
    [{ message: "Post not found" }] and leaves the collection as it was. *)
Theorem castVote_unknown_post requested id oid email db :
  ObjectId_new id = Some oid →
  db !! oid = None →
  castVote requested id email db
  = (db, {| status := 404; body := [("message", "Post not found")] |}).
Proof.
  intros Hid Hp. destruct requested;
    unfold castVote, post_upvote, post_downvote, post_upvote_read,
      post_downvote_read, findOne; by rewrite Hid, Hp.
Qed.

(** C5, as amended: the reply of a successful call has status 200 and a
    body made of the single field [message], whose text names the
    transition taken; it carries no counter.  Every call on an existing
    post is successful unless it would take an integer counter out of
    int64. *)
Theorem castVote_reply requested id oid e db p S :
  ObjectId_new id = Some oid →
  db !! oid = Some p →
  userState p (JsString e) = Some S →
  (fits (upVotes p) → fits (downVotes p) →
     (castVote requested id (JsString e) db).2
     = {| status := 200; body := [("message", spec_message S requested)] |})
  ∧ (status (castVote requested id (JsString e) db).2 = 200 →
       (castVote requested id (JsString e) db).2
       = {| status := 200; body := [("message", spec_message S requested)] |})
  ∧ field "upVotes" (body (castVote requested id (JsString e) db).2) = None
  ∧ field "downVotes" (body (castVote requested id (JsString e) db).2) = None.
Proof.
  intros Hid Hp HS.
  pose proof (castVote_outcome requested _ _ _ _ _ _ Hid Hp HS) as H.
  destruct (spec_table_delta S requested) as [D1 D2].
  destruct (moved _ (upVotes p)) as [u|] eqn:Eu;
    [destruct (moved _ (downVotes p)) as [d|] eqn:Ed|];
    [ destruct H as (p' & -> & _); by repeat split | rewrite H .. ];
    (split; [|done]); intros Hup Hdown.
  - destruct (fits_moved _ _ D2 Hdown) as [d Ed']. congruence.
  - destruct (fits_moved _ _ D1 Hup) as [u Eu']. congruence.
Qed.

(** C6, as amended: a request whose post id is malformed is answered with
    status 500 and [{ message: "Internal server error" }] and changes
    nothing; a request without [userEmail] is not rejected: on an existing
    post whose requested counter has room for one step it is answered with
    status 200 and handled as a first vote, one record with a null
    [userEmail] appended and the requested counter raised by one. *)
Theorem castVote_invalid_input requested id db :
  (∀ email,
     ObjectId_new id = None →
     castVote requested id email db
     = (db, {| status := 500;
               body := [("message", "Internal server error")] |}))
  ∧ (∀ oid p,
       ObjectId_new id = Some oid →
       db !! oid = Some p →
       room 1 (stored_counter requested p) →
       ∃ p',
         castVote requested id JsUndefined db
         = (<[oid := p']> db,
            {| status := 200;
               body := [("message", spec_message NoVote requested)] |})
         ∧ votes_list p'
           = votes_list p
             ++ [{| userEmail := BsonNull; voteType := type_name requested |}]
         ∧ counter (upVotes p')
           = (counter (upVotes p) + (spec_table NoVote requested).2.1)%Z
         ∧ counter (downVotes p')
           = (counter (downVotes p) + (spec_table NoVote requested).2.2)%Z).
Proof.
  split.
  - intros email Hid. by apply castVote_malformed.
  - intros oid p Hid Hp Hroom.
    destruct (added_room requested JsUndefined p 1 ltac:(lia) Hroom)
      as (p' & E & Hvotes & Hc & _ & _ & Ho & _).
    exists p'.
    rewrite (castVote_added _ _ _ _ _ _ Hid Hp (existingVote_undefined p)), E.
    split; [done|]. unfold votes_list at 1. rewrite Hvotes.
    split; [done|].
    destruct requested; simpl in *; rewrite Hc, Ho; split; lia.
Qed.



(** C9, as amended: two calls by two distinct users on the same post, whose
    counters each have room for two steps, run as two handlers that
    interleave at their suspension points in any of the possible orders,
    both finish with status 200, and each counter ends at its initial value
    plus the deltas of the two transitions. *)
Theorem concurrent_votes_distinct_users sched c1 c2 e1 e2 db oid p S1 S2 :
  ObjectId_new (call_id c1) = Some oid →
  ObjectId_new (call_id c2) = Some oid →
  db !! oid = Some p →
  call_user c1 = JsString e1 →
  call_user c2 = JsString e2 →
  e1 ≠ e2 →
  userState p (JsString e1) = Some S1 →
  userState p (JsString e2) = Some S2 →
  room 2 (upVotes p) →
  room 2 (downVotes p) →
  sched ≡ₚ [true; true; false; false] →
  ∃ r1 r2 db' p',
    run_schedule sched (Start c1) (Start c2) db = (Finished r1, Finished r2, db')
    ∧ status r1 = 200
    ∧ status r2 = 200
    ∧ db' !! oid = Some p'
    ∧ counter (upVotes p')
      = (counter (upVotes p) + (spec_table S1 (call_type c1)).2.1
         + (spec_table S2 (call_type c2)).2.1)%Z
    ∧ counter (downVotes p')
      = (counter (downVotes p) + (spec_table S1 (call_type c1)).2.2
         + (spec_table S2 (call_type c2)).2.2)%Z.
Proof.
  intros Hid1 Hid2 Hp He1 He2 Hne HS1 HS2 Hup Hdown Hsched.
  destruct (schedule_serial sched c1 c2 db oid p) as
    (r1 & r2 & db' & Hrun & Horder); try done.
  { rewrite He1, He2. simpl. congruence. }
  destruct (two_calls c1 c2 e1 e2 db oid p S1 S2) as (p12 & E12 & U12 & D12);
    try done.
  destruct (two_calls c2 c1 e2 e1 db oid p S2 S1) as (p21 & E21 & U21 & D21);
    try done.
  exists r1, r2, db'.
  destruct Horder as [H | H].
  - rewrite E12 in H. injection H as <- <- <-. exists p12.
    rewrite lookup_insert_eq. done.
  - rewrite E21 in H. injection H as <- <- <-. exists p21.
    rewrite lookup_insert_eq. repeat split; try done; lia.
Qed.

(** C10, as amended: on an existing post whose document has no [votes]
    field and whose requested counter has room for one step, [castVote]
    takes the caller as having no vote and succeeds: the post gets a
    [votes] array holding the single record
    [{ userEmail, voteType: requested }], the requested counter goes up by
    one and the other counter and every other field stay as they were. *)
Theorem castVote_without_votes_field requested id oid email db p :
  ObjectId_new id = Some oid →
  db !! oid = Some p →
  votes p = None →
  room 1 (stored_counter requested p) →
  ∃ p',
    castVote requested id email db
    = (<[oid := p']> db,
       {| status := 200;
          body := [("message", spec_message NoVote requested)] |})
    ∧ votes p'
      = Some [{| userEmail := serialize email;
                 voteType := type_name requested |}]
    ∧ match requested with
      | up => counter (upVotes p') = (counter (upVotes p) + 1)%Z
              ∧ is_Some (upVotes p')
              ∧ downVotes p' = downVotes p
      | down => counter (downVotes p') = (counter (downVotes p) + 1)%Z
                ∧ is_Some (downVotes p')
                ∧ upVotes p' = upVotes p
      end
    ∧ fields p' = fields p.
Proof.
  intros Hid Hp Hvotes Hroom.
  destruct (added_room requested email p 1 ltac:(lia) Hroom)
    as (p' & E & Hv & Hc & Hs & _ & Ho & Hf).
  exists p'.
  rewrite (castVote_added _ _ _ _ _ _ Hid Hp (existingVote_no_votes _ _ Hvotes)), E.
  split; [done|]. unfold votes_list in Hv. rewrite Hvotes in Hv.
  split; [done|]. split; [|done]. by destruct requested.
Qed.

(** * Further properties of the vote handlers *)

Lemma complete_dom w db : dom (complete w db).1 = dom db.
Proof.
  destruct w as [r|f update r]; simpl; [done|]. unfold updateOne.
  destruct (db !! filter_id f) as [p|] eqn:Hp; [|done].
  destruct (filter_matches f p); [|done].
  destruct (apply_update f p update); [|done]. simpl.
  apply dom_insert_lookup_L. by rewrite Hp.
Qed.

(** X1: a call never adds a post and never removes one, and it leaves
    every post other than the one its id names exactly as it was. *)
Theorem castVote_keeps_posts requested id email db :
  dom (castVote requested id email db).1 = dom db
  ∧ ∀ oid, ObjectId_new id ≠ Some oid →
      (castVote requested id email db).1 !! oid = db !! oid.
Proof.
  split.
  - rewrite castVote_complete. apply complete_dom.
  - intros oid Hne. destruct (ObjectId_new id) as [oid'|] eqn:Hid.
    + apply (castVote_other _ _ oid'); [done|congruence].
    + by rewrite castVote_malformed.
Qed.

(** X2: a call made with one [userEmail] leaves the record of every other
    user, on every post, as it was. *)
Theorem castVote_other_users requested id email email' db oid p :
  db !! oid = Some p →
  serialize email' ≠ serialize email →
  ∃ p',
    (castVote requested id email db).1 !! oid = Some p'
    ∧ existingVote p' email' = existingVote p email'.
Proof.
  intros Hp Hne. destruct (ObjectId_new id) as [oid'|] eqn:Hid.
  - destruct (decide (oid' = oid)) as [->|Hoid].
    + destruct (castVote_votes requested id oid email db p Hid Hp)
        as (p' & Hp' & _ & [E | [[_ E] | [E | E] ] ]);
        exists p'; (split; [done|]); rewrite !existingVote_votes_list, E;
        [ done
        | by apply find_other_push
        | by apply find_other_pull
        | by apply find_other_set_first ].
    + exists p. by rewrite (castVote_other _ _ _ _ _ _ Hid Hoid).
  - exists p. by rewrite castVote_malformed.
Qed.


(** X4: for counters with room for three steps, a third identical call
    undoes the second: after three identical calls the caller's state and
    both counters are what they were after the first. *)
Theorem castVote_three_times requested id oid e db p S :
  ObjectId_new id = Some oid →
  db !! oid = Some p →
  userState p (JsString e) = Some S →
  room 3 (upVotes p) →
  room 3 (downVotes p) →
  ∃ p1 p3,
    (castVote requested id (JsString e) db).1 = <[oid := p1]> db
    ∧ (castVote requested id (JsString e)
         (castVote requested id (JsString e)
            (castVote requested id (JsString e) db).1).1).1
      = <[oid := p3]> db
    ∧ userState p3 (JsString e) = userState p1 (JsString e)
    ∧ counter (upVotes p3) = counter (upVotes p1)
    ∧ counter (downVotes p3) = counter (downVotes p1).
Proof.
  intros Hid Hp HS Hup Hdown.
  destruct (castVote_step requested _ _ _ _ _ _ Hid Hp HS)
    as (p1 & E1 & Hstep1); [by eapply room_le; [|done]..|].
  destruct (step_counters _ _ _ _ _ 3 Hstep1 ltac:(lia) Hup Hdown)
    as (U1 & D1 & Hup1 & Hdown1).
  destruct (castVote_step requested _ _ _ (<[oid := p1]> db) _ _ Hid
              (lookup_insert_eq _ _ _) (step_state _ _ _ _ _ Hstep1))
    as (p2 & E2 & Hstep2); [by eapply room_le; [|done]..|].
  destruct (step_counters _ _ _ _ _ 2 Hstep2 ltac:(lia) Hup1 Hdown1)
    as (U2 & D2 & Hup2 & Hdown2).
  destruct (castVote_step requested _ _ _ (<[oid := p2]> (<[oid := p1]> db))
              _ _ Hid (lookup_insert_eq _ _ _) (step_state _ _ _ _ _ Hstep2)
              Hup2 Hdown2)
    as (p3 & E3 & Hstep3).
  destruct (step_counters _ _ _ _ _ 1 Hstep3 ltac:(lia) Hup2 Hdown2)
    as (U3 & D3 & _).
  exists p1, p3. rewrite E1. simpl. rewrite E2. simpl. rewrite E3. simpl.
  rewrite !insert_insert_eq. split; [done|]. split; [done|].
  rewrite (step_state _ _ _ _ _ Hstep3), U3, D3, U2, D2,
    (step_state _ _ _ _ _ Hstep1).
  destruct S as [|[]], requested; simpl; repeat split; lia.
Qed.


(** ** Two handlers of one user in flight *)





(** ** Calls on different posts *)

Lemma castVote_insert_other requested id oid email db oid2 q :
  ObjectId_new id = Some oid →
  oid ≠ oid2 →
  castVote requested id email (<[oid2 := q]> db)
  = (<[oid2 := q]> (castVote requested id email db).1,
     (castVote requested id email db).2).
Proof.
  intros Hid Hne. destruct requested;
    unfold castVote, post_upvote, post_downvote, post_upvote_read,
      post_downvote_read, findOne; rewrite Hid;
    rewrite lookup_insert_ne by done;
    (destruct (db !! oid) as [p|] eqn:Hp; [|done]);
    (destruct (existingVote p email) as [v|];
     [destruct (String.eqb (voteType v) _)|]);
    unfold complete, updateOne; cbn [filter_id fst snd];
    rewrite lookup_insert_ne, Hp by done;
    (destruct (filter_matches _ _); [|done]);
    (destruct (apply_update _ _ _); [|done]);
    cbn [fmap option_fmap option_map fst snd];
    by rewrite insert_insert_ne.
Qed.

Lemma castVote_shape requested id oid email db :
  ObjectId_new id = Some oid →
  (castVote requested id email db).1 = db
  ∨ ∃ p', (castVote requested id email db).1 = <[oid := p']> db.
Proof.
  intros Hid. destruct requested;
    unfold castVote, post_upvote, post_downvote, post_upvote_read,
      post_downvote_read, findOne; rewrite Hid;
    (destruct (db !! oid) as [p|] eqn:Hp; [|by left]);
    (destruct (existingVote p email) as [v|];
     [destruct (String.eqb (voteType v) _)|]);
    unfold complete, updateOne; cbn [filter_id fst snd]; rewrite Hp;
    (destruct (filter_matches _ _); [|by left]);
    (destruct (apply_update _ _ _); [right; by eexists|by left]).
Qed.

(** X9: calls on two different posts do not interfere: in either order
    they give the same replies and the same final collection. *)
Theorem castVote_commute_posts t1 id1 email1 t2 id2 email2 oid1 oid2 db :
  ObjectId_new id1 = Some oid1 →
  ObjectId_new id2 = Some oid2 →
  oid1 ≠ oid2 →
  (castVote t2 id2 email2 (castVote t1 id1 email1 db).1).1
  = (castVote t1 id1 email1 (castVote t2 id2 email2 db).1).1
  ∧ (castVote t2 id2 email2 (castVote t1 id1 email1 db).1).2
    = (castVote t2 id2 email2 db).2
  ∧ (castVote t1 id1 email1 (castVote t2 id2 email2 db).1).2
    = (castVote t1 id1 email1 db).2.
Proof.
  intros Hid1 Hid2 Hne.
  destruct (castVote_shape t1 id1 oid1 email1 db Hid1) as [E1 | [p1 E1] ];
    destruct (castVote_shape t2 id2 oid2 email2 db Hid2) as [E2 | [p2 E2] ];
    rewrite E1, E2;
    rewrite ?(castVote_insert_other t1 id1 oid1 email1 db oid2) by done;
    rewrite ?(castVote_insert_other t2 id2 oid2 email2 db oid1) by done;
    simpl; rewrite ?E1, ?E2; repeat split; try done.
  by rewrite insert_insert_ne.
Qed.

(** * [DELETE /delete-post/:id] *)

(** X10: once a post is deleted, a vote on it is answered 404 "Post not
    found" and the post stays deleted. *)
Theorem delete_post_then_castVote requested id id' oid email db :
  ObjectId_new id = Some oid →
  ObjectId_new id' = Some oid →
  castVote requested id' email (delete_post id db).1
  = (delete oid db,
     {| status := 404; body := [("message", "Post not found")] |})
  ∧ (delete_post id db).2
    = {| reply_status := 200; reply_body := [("success", JsonBool true)] |}.
Proof.
  intros Hid Hid'. unfold delete_post. rewrite Hid. simpl. split; [|done].
  destruct requested;
    unfold castVote, post_upvote, post_downvote, post_upvote_read,
      post_downvote_read, findOne; by rewrite Hid', lookup_delete_eq.
Qed.

(** X11: after a post is deleted the popularity listing holds exactly the
    entries it held before, less the entry of that post. *)
Theorem delete_post_listing id oid db v :
  ObjectId_new id = Some oid →
  v ∈ (sort_by_popularity (delete_post id db).1).2
  ↔ v ∈ (sort_by_popularity db).2 ∧ view_id v ≠ oid.
Proof.
  intros Hid. unfold delete_post. rewrite Hid. simpl.
  unfold sort_votesCount. rewrite !merge_sort_Permutation.
  rewrite !list_elem_of_fmap. split.
  - intros ([i p] & -> & Hin). apply elem_of_map_to_list in Hin.
    apply lookup_delete_Some in Hin as [Hne Hp]. split; [|by simpl].
    exists (i, p). split; [done|]. by apply elem_of_map_to_list.
  - intros [([i p] & -> & Hin) Hne]. exists (i, p). split; [done|].
    apply elem_of_map_to_list in Hin. apply elem_of_map_to_list.
    apply lookup_delete_Some. split; [|done]. simpl in Hne. congruence.
Qed.

(** * The users collection *)

Lemma users_updateOne_emails q f users :
  (∀ u, user_email (f u) = user_email u) →
  user_email <$> users_updateOne q f users = user_email <$> users.
Proof.
  intros Hf. induction users as [|u users IH]; csimpl; [done|].
  destruct (email_is q u); csimpl; by rewrite ?Hf, ?IH.
Qed.

Lemma users_findOne_updateOne q f users :
  (∀ u, user_email (f u) = user_email u) →
  users_findOne q (users_updateOne q f users) = f <$> users_findOne q users.
Proof.
  intros Hf. unfold users_findOne.
  induction users as [|u users IH]; simpl; [done|].
  destruct (email_is q u) eqn:E; simpl.
  - unfold email_is in *. by rewrite Hf, E.
  - by rewrite E.
Qed.

Lemma users_findOne_updateOne_other q q' f users :
  (∀ u, user_email (f u) = user_email u) →
  serialize q' ≠ serialize q →
  users_findOne q' (users_updateOne q f users) = users_findOne q' users.
Proof.
  intros Hf Hne. unfold users_findOne.
  induction users as [|u users IH]; simpl; [done|].
  destruct (email_is q u) eqn:E; simpl.
  - unfold email_is in *. rewrite Hf.
    apply bool_decide_eq_true in E.
    rewrite !bool_decide_eq_false_2; [done|congruence..].
  - by rewrite IH.
Qed.

Lemma users_updateOne_twice q f g users :
  (∀ u, user_email (f u) = user_email u) →
  users_updateOne q g (users_updateOne q f users)
  = users_updateOne q (g ∘ f) users.
Proof.
  intros Hf. induction users as [|u users IH]; simpl; [done|].
  destruct (email_is q u) eqn:E; simpl.
  - unfold email_is in *. by rewrite Hf, E.
  - by rewrite E, IH.
Qed.

Lemma users_updateOne_same q f users u :
  users_findOne q users = Some u →
  f u = u →
  users_updateOne q f users = users.
Proof.
  unfold users_findOne. induction users as [|x users IH]; simpl; [done|].
  destruct (email_is q x); [by intros [= ->] ->|].
  intros Hu Hf. by rewrite IH.
Qed.

Lemma users_updateOne_ext q f g users u :
  users_findOne q users = Some u →
  f u = g u →
  users_updateOne q f users = users_updateOne q g users.
Proof.
  unfold users_findOne. induction users as [|x users IH]; simpl; [done|].
  destruct (email_is q x); [by intros [= ->] ->|].
  intros Hu Hf. by rewrite IH.
Qed.

Lemma find_email_None b users :
  List.find (fun u => bool_decide (user_email u = b)) users = None
  ↔ b ∉ user_email <$> users.
Proof.
  induction users as [|x users IH]; csimpl.
  - split; [intros _; apply not_elem_of_nil | done].
  - rewrite not_elem_of_cons, <- IH.
    case_bool_decide as E; split; try done; intros [? ?]; [congruence|done].
Qed.

Lemma run_user_request_emails users r :
  NoDup (user_email <$> users) →
  NoDup (user_email <$> run_user_request users r).
Proof.
  intros Hnd. destruct r as [d|d|e|e]; simpl.
  - unfold new_user. destruct (List.find _ users) eqn:E; simpl; [done|].
    rewrite fmap_app. apply NoDup_app. split; [done|]. split.
    + intros b Hb ->%list_elem_of_singleton. by apply find_email_None in E.
    + apply NoDup_singleton.
  - unfold new_user_as_user. destruct (List.find _ users) eqn:E; simpl; [done|].
    rewrite fmap_app. apply NoDup_app. split; [done|]. split.
    + intros b Hb ->%list_elem_of_singleton. by apply find_email_None in E.
    + apply NoDup_singleton.
  - unfold make_admin. destruct (users_findOne e users); simpl; [|done].
    destruct (is_admin u); simpl; by rewrite users_updateOne_emails.
  - by rewrite users_updateOne_emails.
Qed.

(** X12: the handlers that write to the users collection keep e-mail
    addresses unique: if no two users share an [email] before a sequence of
    [/new-user], [/users/make-admin/] and [/update-badge] requests, none do
    after it. *)
Theorem users_emails_unique rs users :
  NoDup (user_email <$> users) →
  NoDup (user_email <$> run_user_requests rs users).
Proof.
  revert users. induction rs as [|r rs IH]; intros users Hnd; simpl; [done|].
  apply IH. by apply run_user_request_emails.
Qed.

(** X13: [/new-user] never touches a user that exists, so a second
    registration with the same [email] changes nothing, whatever else the
    second body holds. *)
Theorem new_user_twice d d' users :
  user_email d' = user_email d →
  new_user d' (new_user d users).1 = ((new_user d users).1, success).
Proof.
  intros He. unfold new_user. rewrite He.
  destruct (List.find _ users) as [u|] eqn:E; simpl.
  - by rewrite E.
  - rewrite find_app_None by done. simpl.
    by rewrite bool_decide_eq_true_2.
Qed.

(** X14: for a user whose role is "admin" or "user", two
    [/users/make-admin/] requests leave the users collection exactly as it
    was. *)
Theorem make_admin_twice e users u :
  users_findOne e users = Some u →
  role u = Some "admin" ∨ role u = Some "user" →
  (make_admin e (make_admin e users).1).1 = users.
Proof.
  intros Hu Hrole. unfold make_admin. rewrite Hu.
  assert (He : ∀ r x, user_email (set_role r x) = user_email x) by done.
  destruct u as [em ro ba pr]. simpl in Hrole.
  destruct Hrole as [-> | ->]; unfold is_admin at 1; simpl;
    rewrite users_findOne_updateOne, Hu by done; simpl;
    rewrite users_updateOne_twice by done;
    by apply (users_updateOne_same _ _ _ _ Hu).
Qed.

(** X15: [/users/make-admin/] flips whether [verifyAdmin] lets the named
    user through, and changes what [verifyAdmin] does for nobody else. *)
Theorem make_admin_toggles_access e users u :
  users_findOne e users = Some u →
  (verifyAdmin e (make_admin e users).1 = Next ↔ verifyAdmin e users ≠ Next)
  ∧ ∀ e', serialize e' ≠ serialize e →
      users_findOne e' (make_admin e users).1 = users_findOne e' users
      ∧ verifyAdmin e' (make_admin e users).1 = verifyAdmin e' users.
Proof.
  intros Hu.
  assert (He : ∀ r x, user_email (set_role r x) = user_email x) by done.
  split.
  - unfold make_admin, verifyAdmin. rewrite Hu.
    destruct (is_admin u) eqn:Ea; simpl;
      rewrite users_findOne_updateOne, Hu by done; simpl; by split.
  - intros e' Hne.
    assert (Hfind : users_findOne e' (make_admin e users).1
                    = users_findOne e' users).
    { unfold make_admin. rewrite Hu.
      destruct (is_admin u); simpl; by apply users_findOne_updateOne_other. }
    split; [done|]. unfold verifyAdmin. by rewrite Hfind.
Qed.

(** X16: in [src/index.js], [/new-user] stores the role the body carries:
    after registering a new e-mail with a body whose [role] is "admin",
    [verifyAdmin] lets that e-mail through. *)
Theorem new_user_role_from_body e d users :
  user_email d = serialize e →
  users_findOne e users = None →
  role d = Some "admin" →
  users_findOne e (new_user d users).1 = Some d
  ∧ verifyAdmin e (new_user d users).1 = Next.
Proof.
  intros He Hnone Hrole.
  assert (Hfind : users_findOne e (new_user d users).1 = Some d).
  { unfold new_user, users_findOne, email_is in *. rewrite He.
    rewrite Hnone. simpl. rewrite find_app_None by done. simpl.
    by rewrite bool_decide_eq_true_2. }
  split; [done|]. unfold verifyAdmin. rewrite Hfind.
  unfold is_admin. by rewrite bool_decide_eq_true_2.
Qed.

(** X17: in [src/unnamed/part_000], [/new-user] stores every new user with
    role "user", whatever role the body carries, and changes no user that
    exists. *)
Theorem new_user_as_user_role e d users :
  user_email d = serialize e →
  (users_findOne e users = None →
     users_findOne e (new_user_as_user d users).1 = Some (set_role "user" d))
  ∧ (∀ e', users_findOne e' users ≠ None →
       users_findOne e' (new_user_as_user d users).1 = users_findOne e' users).
Proof.
  intros He. split.
  - intros Hnone. unfold new_user_as_user, users_findOne, email_is in *.
    rewrite He, Hnone. simpl. rewrite find_app_None by done. simpl.
    by rewrite bool_decide_eq_true_2.
  - intros e' Hsome. unfold new_user_as_user.
    destruct (List.find _ users); simpl; [done|].
    unfold users_findOne in *.
    destruct (List.find (email_is e') users) as [u|] eqn:E; [|done].
    by apply find_app_Some.
Qed.

(** * Search terms *)

#[global] Instance more_searched_total : Total more_searched.
Proof. intros a b. unfold more_searched. lia. Qed.

#[global] Instance more_searched_trans : Transitive more_searched.
Proof. intros a b c. unfold more_searched. lia. Qed.

Lemma times_searched_snoc t terms d :
  times_searched t (terms ++ [d])
  = times_searched t terms + (if bool_decide (searchTerm d = t) then 1 else 0).
Proof.
  unfold times_searched. rewrite List.filter_app, length_app. simpl.
  by case_bool_decide.
Qed.

Lemma add_to_groups_ids d groups :
  _id <$> add_to_groups d groups
  = if decide (searchTerm d ∈ _id <$> groups) then _id <$> groups
    else (_id <$> groups) ++ [searchTerm d].
Proof.
  induction groups as [|g groups IH]; csimpl.
  - done.
  - case_bool_decide as E; csimpl.
    + rewrite decide_True; [done|]. rewrite E. apply list_elem_of_here.
    + rewrite IH. destruct (decide (searchTerm d ∈ _id <$> groups)) as [Hin|Hin].
      * rewrite decide_True; [done|]. by apply list_elem_of_further.
      * rewrite decide_False; [done|].
        intros [?|?]%elem_of_cons; [congruence|done].
Qed.

Lemma add_to_groups_elem d groups g' :
  NoDup (_id <$> groups) →
  g' ∈ add_to_groups d groups →
  (g' ∈ groups ∧ _id g' ≠ searchTerm d)
  ∨ (_id g' = searchTerm d
     ∧ ((∃ g, g ∈ groups ∧ _id g = searchTerm d
              ∧ count g' = S (count g)
              ∧ latestCreatedAt g'
                = Z.max (latestCreatedAt g) (createdAt d))
        ∨ ((searchTerm d ∉ _id <$> groups)
           ∧ count g' = 1 ∧ latestCreatedAt g' = createdAt d))).
Proof.
  induction groups as [|g groups IH]; csimpl.
  - intros _ ->%list_elem_of_singleton. right. split; [done|]. right.
    split; [apply not_elem_of_nil|done].
  - intros [Hg Hnd]%NoDup_cons. case_bool_decide as E.
    + intros [-> | Hin]%elem_of_cons.
      * right. split; [done|]. left. exists g.
        split; [apply list_elem_of_here|done].
      * left. split; [by apply list_elem_of_further|].
        intros Eg. apply Hg. rewrite E, <- Eg. by apply list_elem_of_fmap_2.
    + intros [-> | Hin]%elem_of_cons.
      * left. split; [apply list_elem_of_here|done].
      * destruct (IH Hnd Hin) as [[H1 H2] | [H1 [(g0 & H2 & H3) | (H2 & H3)] ] ].
        -- left. split; [by apply list_elem_of_further|done].
        -- right. split; [done|]. left. exists g0.
           split; [by apply list_elem_of_further|done].
        -- right. split; [done|]. right. split; [|done].
           intros [?|?]%elem_of_cons; [congruence|done].
Qed.

Lemma times_searched_absent t terms :
  t ∉ searchTerm <$> terms → times_searched t terms = 0.
Proof.
  unfold times_searched. induction terms as [|d terms IH]; csimpl; [done|].
  intros [Hd Hl]%not_elem_of_cons.
  rewrite bool_decide_eq_false_2 by congruence. auto.
Qed.

Lemma groups_of_add terms groups d :
  groups_of terms groups →
  groups_of (terms ++ [d]) (add_to_groups d groups).
Proof.
  intros (Hnd & Hgroups & Hcover). split; [|split].
  - rewrite add_to_groups_ids. case_decide as Hin; [done|].
    apply NoDup_app. split; [done|]. split; [|apply NoDup_singleton].
    by intros b Hb ->%list_elem_of_singleton.
  - intros g' Hg'. rewrite times_searched_snoc.
    destruct (add_to_groups_elem d groups g' Hnd Hg')
      as [[Hin Hne] | [Eid [(g & Hin & Eg & Ec & El) | (Hfresh & Ec & El)] ] ].
    + destruct (Hgroups g' Hin) as (C & (d0 & Hd0 & Ed0 & Ld0) & B).
      rewrite bool_decide_eq_false_2 by congruence.
      split; [lia|]. split.
      * exists d0. split; [|done]. apply elem_of_app. by left.
      * intros d' [Hd'| ->%list_elem_of_singleton]%elem_of_app E'; [auto|].
        congruence.
    + destruct (Hgroups g Hin) as (C & (d0 & Hd0 & Ed0 & Ld0) & B).
      rewrite bool_decide_eq_true_2 by congruence.
      split; [rewrite Ec, C, Eid, <- Eg; lia|]. split.
      * destruct (Z.max_spec (latestCreatedAt g) (createdAt d))
          as [[_ Em] | [_ Em] ].
        -- exists d. split; [apply elem_of_app; right; apply list_elem_of_here|].
           split; [done|]. by rewrite El, Em.
        -- exists d0. split; [apply elem_of_app; by left|].
           split; [congruence|]. by rewrite El, Em.
      * intros d' [Hd'| ->%list_elem_of_singleton]%elem_of_app E'.
        -- rewrite El. etrans; [apply B; [done|congruence]|]. lia.
        -- rewrite El. lia.
    + rewrite bool_decide_eq_true_2 by congruence.
      assert (Hterms : searchTerm d ∉ searchTerm <$> terms).
      { intros (d0 & E0 & Hd0)%list_elem_of_fmap. apply Hfresh.
        rewrite E0. by apply Hcover. }
      split; [rewrite Ec, Eid, (times_searched_absent _ _ Hterms); lia|]. split.
      * exists d. split; [apply elem_of_app; right; apply list_elem_of_here|].
        by rewrite El.
      * intros d' [Hd'| ->%list_elem_of_singleton]%elem_of_app E'.
        -- exfalso. apply Hterms. rewrite <- Eid, <- E'.
           by apply list_elem_of_fmap_2.
        -- rewrite El. lia.
  - intros d' Hd'. rewrite add_to_groups_ids.
    apply elem_of_app in Hd' as [Hd'| ->%list_elem_of_singleton].
    + case_decide; [by apply Hcover|]. apply elem_of_app. left. by apply Hcover.
    + case_decide; [done|]. apply elem_of_app. right. apply list_elem_of_here.
Qed.

Lemma group_by_searchTerm_spec terms :
  groups_of terms (group_by_searchTerm terms).
Proof.
  unfold group_by_searchTerm.
  induction terms as [|d terms IH] using rev_ind.
  - split; [apply NoDup_nil_2|]. split; intros ? Hin; by apply elem_of_nil in Hin.
  - rewrite foldl_app. simpl. by apply groups_of_add.
Qed.

Lemma recent_search_terms_elem terms g :
  g ∈ recent_search_terms terms → g ∈ group_by_searchTerm terms.
Proof.
  unfold recent_search_terms. intros Hin.
  apply (subseteq_take 3) in Hin.
  by rewrite merge_sort_Permutation in Hin.
Qed.

(** X18: every entry of the recent-search listing carries exact numbers:
    its [count] is the number of stored searches of its term, at least
    one, and its [latestCreatedAt] is the [createdAt] of one of them and
    not earlier than that of any of them. *)
Theorem recent_search_terms_counts terms g :
  g ∈ recent_search_terms terms →
  count g = times_searched (_id g) terms
  ∧ 1 ≤ count g
  ∧ (∃ d, d ∈ terms ∧ searchTerm d = _id g ∧ createdAt d = latestCreatedAt g)
  ∧ (∀ d, d ∈ terms → searchTerm d = _id g →
       (createdAt d ≤ latestCreatedAt g)%Z).
Proof.
  intros Hin%recent_search_terms_elem.
  destruct (group_by_searchTerm_spec terms) as (_ & Hgroups & _).
  destruct (Hgroups g Hin) as (C & (d & Hd & Ed & Ld) & B).
  split; [done|]. split; [|eauto].
  rewrite C. unfold times_searched.
  assert (Hf : d ∈ List.filter (fun d => bool_decide (searchTerm d = _id g)) terms).
  { apply list_elem_of_In, filter_In. split; [by apply list_elem_of_In|].
    by apply bool_decide_eq_true. }
  destruct (List.filter _ terms); [by apply elem_of_nil in Hf|simpl; lia].
Qed.

(** X19: the recent-search listing is the top three: it holds three
    entries, or one per distinct term when there are fewer than three; no
    term is listed twice; entries come by falling count and, at equal
    count, by falling latest date; and a stored search whose term is not
    listed has a term searched no more often than any listed one, and at
    equal count it is no later than that entry's latest date. *)
Theorem recent_search_terms_top terms :
  length (recent_search_terms terms)
  = 3 `min` length (remove_dups (searchTerm <$> terms))
  ∧ NoDup (_id <$> recent_search_terms terms)
  ∧ StronglySorted more_searched (recent_search_terms terms)
  ∧ ∀ d g,
      d ∈ terms →
      searchTerm d ∉ _id <$> recent_search_terms terms →
      g ∈ recent_search_terms terms →
      times_searched (searchTerm d) terms < count g
      ∨ (times_searched (searchTerm d) terms = count g
         ∧ (createdAt d ≤ latestCreatedAt g)%Z).
Proof.
  destruct (group_by_searchTerm_spec terms) as (Hnd & Hgroups & Hcover).
  pose proof (merge_sort_Permutation more_searched (group_by_searchTerm terms))
    as Hperm.
  pose proof (StronglySorted_merge_sort more_searched
                (group_by_searchTerm terms)) as Hsorted.
  unfold recent_search_terms.
  set (sorted := merge_sort more_searched (group_by_searchTerm terms)) in *.
  split; [|split; [|split] ].
  - rewrite length_take, Hperm. f_equal.
    rewrite <- (length_fmap _id). apply Permutation_length.
    apply NoDup_Permutation; [done|apply NoDup_remove_dups|].
    intros t. rewrite elem_of_remove_dups. split.
    + intros (g & -> & Hg)%list_elem_of_fmap.
      destruct (Hgroups g Hg) as (_ & (d & Hd & <- & _) & _).
      by apply list_elem_of_fmap_2.
    + intros (d & -> & Hd)%list_elem_of_fmap. by apply Hcover.
  - rewrite fmap_take. eapply sublist_NoDup; [|apply sublist_take].
    by rewrite Hperm.
  - rewrite <- (take_drop 3 sorted) in Hsorted.
    by apply StronglySorted_app_1_l in Hsorted.
  - intros d g Hd Hout Hg.
    destruct (proj1 (list_elem_of_fmap _ _ _) (Hcover d Hd)) as (gd & Egd & Hgd).
    assert (Hdrop : gd ∈ drop 3 sorted).
    { rewrite <- Hperm, <- (take_drop 3 sorted) in Hgd.
      apply elem_of_app in Hgd as [Hgd|Hgd]; [|done].
      exfalso. apply Hout. rewrite Egd. by apply list_elem_of_fmap_2. }
    rewrite <- (take_drop 3 sorted) in Hsorted.
    pose proof (StronglySorted_app_1_elem_of _ _ _ g gd Hsorted Hg Hdrop)
      as Horder.
    destruct (Hgroups gd Hgd) as (C & _ & B).
    rewrite Egd, <- C. specialize (B d Hd Egd).
    unfold more_searched in Horder. lia.
Qed.

(** X20: [POST /search-term] followed by the recent-search listing: an
    entry's [count] is the number of searches of its term stored before,
    plus one when its term is the one just posted. *)
Theorem search_term_counted body now terms g :
  g ∈ recent_search_terms (search_term body now terms).1 →
  count g
  = times_searched (_id g) terms + (if bool_decide (_id g = body) then 1 else 0)
  ∧ (_id g = body → (now ≤ latestCreatedAt g)%Z).
Proof.
  intros Hin%recent_search_terms_elem. simpl in Hin.
  destruct (group_by_searchTerm_spec
              (terms ++ [{| searchTerm := body; createdAt := now |}]))
    as (_ & Hgroups & _).
  destruct (Hgroups g Hin) as (C & _ & B).
  rewrite C, times_searched_snoc. simpl. split.
  - f_equal. by repeat case_bool_decide.
  - intros Eg.
    apply (B {| searchTerm := body; createdAt := now |}); [|done].
    apply elem_of_app. right. apply list_elem_of_here.
Qed.

(** * The admin route *)

(** X21: [PATCH /users/make-admin/] changes the users collection only for
    a request whose token cookie is present, is not empty and is verified,
    and whose verified e-mail belongs to a user with role "admin". *)
Theorem make_admin_route_guard token email users :
  (make_admin_route token email users).1 ≠ users →
  ∃ tok verified caller,
    token = Some tok
    ∧ tok ≠ ""
    ∧ jwt_verify tok = Some verified
    ∧ users_findOne (payload_email verified) users = Some caller
    ∧ role caller = Some "admin".
Proof.
  unfold make_admin_route, verifyToken, verifyAdmin.
  destruct token as [tok|]; [|done].
  destruct (String.eqb tok "") eqn:Etok; [done|].
  destruct (jwt_verify tok) as [verified|] eqn:Ev; [|done].
  destruct (users_findOne (payload_email verified) users) as [caller|] eqn:Ec;
    [|done].
  destruct (is_admin caller) eqn:Ea; [|done].
  intros _. exists tok, verified, caller.
  apply String.eqb_neq in Etok. by apply bool_decide_eq_true in Ea.
Qed.

(** X22: an admin who names their own e-mail in [/users/make-admin/] is
    made a user: the request is served, and the same token is then refused
    with 401 on that route, whatever e-mail it names. *)
Theorem make_admin_self_demotion tok verified caller email' users :
  tok ≠ "" →
  jwt_verify tok = Some verified →
  users_findOne (payload_email verified) users = Some caller →
  role caller = Some "admin" →
  (make_admin_route (Some tok) (payload_email verified) users).2 = Served success
  ∧ make_admin_route (Some tok) email'
      (make_admin_route (Some tok) (payload_email verified) users).1
    = ((make_admin_route (Some tok) (payload_email verified) users).1,
       Refused (status_send 401
                  [("message", "Access Denied! unauthorized user")])).
Proof.
  intros Htok Hv Hc Hrole.
  assert (He : ∀ r x, user_email (set_role r x) = user_email x) by done.
  apply String.eqb_neq in Htok.
  unfold make_admin_route, verifyToken, verifyAdmin, make_admin.
  rewrite Htok, Hv, Hc.
  assert (Ha : is_admin caller = true) by by apply bool_decide_eq_true.
  rewrite Ha. simpl. split; [done|].
  by rewrite users_findOne_updateOne, Hc by done.
Qed.

(** * Comments *)

#[global] Instance newest_first_total : Total newest_first.
Proof. intros a b. unfold newest_first. lia. Qed.

#[global] Instance newest_first_trans : Transitive newest_first.
Proof. intros a b c. unfold newest_first. lia. Qed.

Lemma all_reported_comments_elem comments d :
  d ∈ all_reported_comments comments
  ↔ comments !! d.1 = Some d.2 ∧ reported d.2 = true.
Proof.
  unfold all_reported_comments.
  rewrite list_elem_of_In, filter_In, <- list_elem_of_In.
  destruct d as [oid c]. by rewrite elem_of_map_to_list.
Qed.

(** X23: after [/report-comment/:id] on a comment that exists, the comment
    is in the reported listing exactly when the [feedbacks] of the body is
    not the empty string (a body without [feedbacks] lists it), and the
    listing is unchanged for every other comment. *)
Theorem report_comment_listing id oid fb comments c :
  ObjectId_new id = Some oid →
  comments !! oid = Some c →
  ((oid, set_feedbacks (serialize fb) c)
     ∈ all_reported_comments (report_comment id fb comments).1
   ↔ fb ≠ JsString "")
  ∧ ∀ d, d.1 ≠ oid →
      (d ∈ all_reported_comments (report_comment id fb comments).1
       ↔ d ∈ all_reported_comments comments).
Proof.
  intros Hid Hc. unfold report_comment. rewrite Hid. simpl. split.
  - rewrite all_reported_comments_elem. simpl.
    rewrite lookup_alter_eq, Hc. simpl. unfold reported. simpl.
    rewrite negb_true_iff, bool_decide_eq_false.
    split.
    + intros [_ Hne] ->. by apply Hne.
    + intros Hne. split; [done|]. by destruct fb; [| |intros [= ->] ].
  - intros d Hd. rewrite !all_reported_comments_elem.
    by rewrite lookup_alter_ne.
Qed.

(** X24: [/resolve-comment/:id] and [/delete-comment/:id] have the same
    effect on the reported listing: each takes the comment with that id out
    of it and leaves every other entry. *)
Theorem resolve_comment_listing id oid comments d :
  ObjectId_new id = Some oid →
  (d ∈ all_reported_comments (resolve_comment id comments).1
   ↔ d ∈ all_reported_comments comments ∧ d.1 ≠ oid)
  ∧ (d ∈ all_reported_comments (delete_comment id comments).1
     ↔ d ∈ all_reported_comments comments ∧ d.1 ≠ oid).
Proof.
  intros Hid. unfold resolve_comment, delete_comment. rewrite Hid. simpl.
  rewrite !all_reported_comments_elem. split.
  - rewrite lookup_alter_Some. split.
    + intros [ [ [<- (c & Hc & E)] | [Hne Hc] ] Hrep].
      * rewrite E in Hrep. done.
      * done.
    + intros [ [Hc Hrep] Hne]. split; [|done]. right. split; [congruence|done].
  - rewrite lookup_delete_Some. split.
    + by intros [ [Hne Hc] Hrep].
    + intros [ [Hc Hrep] Hne]. split; [|done]. split; [congruence|done].
Qed.

(** X25: [/post-comments/:id] with a well-formed id returns exactly the
    comments of that post, each once, newest first; with a malformed id the
    constructor's exception leaves the handler, which has no [try] around
    it, and nothing is sent. *)
Theorem post_comments_newest_first id comments :
  match ObjectId_new id with
  | Some pid =>
      ∃ l,
        post_comments id comments = Some l
        ∧ StronglySorted newest_first l
        ∧ NoDup l
        ∧ ∀ d, d ∈ l ↔ comments !! d.1 = Some d.2 ∧ postId d.2 = pid
  | None => post_comments id comments = None
  end.
Proof.
  unfold post_comments. destruct (ObjectId_new id) as [pid|]; [|done].
  eexists. split; [done|].
  split; [apply StronglySorted_merge_sort; apply _|].
  split.
  - rewrite merge_sort_Permutation. apply NoDup_ListNoDup, List.NoDup_filter.
    apply NoDup_ListNoDup, NoDup_map_to_list.
  - intros [oid c]. rewrite merge_sort_Permutation.
    rewrite list_elem_of_In, filter_In, <- list_elem_of_In.
    rewrite elem_of_map_to_list, bool_decide_eq_true. done.
Qed.

End Handlers.

(** * Worked examples *)

Example hexObjectId_post_id :
  hexObjectId post_id = Some 1%N ∧ hexObjectId malformed_id = None.
Proof. split; reflexivity. Qed.

Example scenario_result :
  run_calls hexObjectId scenario forum !! 1%N
  = Some {| votes := Some [{| userEmail := BsonString alice; voteType := "down" |};
                           {| userEmail := BsonString bob; voteType := "down" |}];
            upVotes := Some (BsonInt 0); downVotes := Some (BsonInt 2);
            fields := {[ "title" := BsonString "Hello" ]} |}.
Proof. vm_compute. reflexivity. Qed.

(** C1 fails as stated: [upVotes] is the double [2 ^ 53]; a first upvote
    by alice is answered "Upvote added", her record is appended, and
    [upVotes] is what it was, not one more. *)
Lemma castVote_transition_table_counterexample :
  userState full_post (JsString alice) = Some NoVote
  ∧ castVote hexObjectId up post_id (JsString alice) full_forum
    = (<[1%N := {| votes := Some [{| userEmail := BsonString alice;
                                     voteType := "up" |}];
                   upVotes := Some (BsonDouble (2 ^ 53));
                   downVotes := Some (BsonInt 0);
                   fields := {[ "title" := BsonString "Hello" ]} |}]>
         full_forum,
       {| status := 200; body := [("message", "Upvote added")] |})
  ∧ upVotes full_post = Some (BsonDouble (2 ^ 53)).
Proof. split; [reflexivity|]. split; [vm_compute; reflexivity|reflexivity]. Qed.

Lemma castVote_transition_table_witness :
  ∃ p',
    (castVote hexObjectId down post_id (JsString alice) voted_forum).1
    = <[1%N := p']> voted_forum
    ∧ status (castVote hexObjectId down post_id (JsString alice) voted_forum).2
      = 200
    ∧ userState p' (JsString alice) = Some (Voted down)
    ∧ counter (upVotes p') = (1 + -1)%Z
    ∧ counter (downVotes p') = (0 + 1)%Z.
Proof.
  apply (castVote_transition_table hexObjectId down post_id 1%N alice
           voted_forum voted_post (Voted up));
    [reflexivity | reflexivity | reflexivity
    | right; reflexivity | right; reflexivity].
Defined.

(** C2 fails as stated.  Two upvotes without [userEmail] and one with
    [userEmail: null], one after another from a fresh post, leave
    [upVotes = 1] and no record.  And after alice's upvote, two more
    upvotes of hers that are both read before either is written leave
    [upVotes = -1] and no record. *)
Lemma counters_match_votes_counterexample :
  run_calls hexObjectId
    [ {| call_type := up; call_id := post_id; call_user := JsUndefined |};
      {| call_type := up; call_id := post_id; call_user := JsUndefined |};
      {| call_type := up; call_id := post_id; call_user := JsNull |} ]
    forum !! 1%N
  = Some {| votes := Some []; upVotes := Some (BsonInt 1);
            downVotes := Some (BsonInt 0);
            fields := {[ "title" := BsonString "Hello" ]} |}
  ∧ ∃ db',
      run_schedule hexObjectId [true; false; true; false]
        (Start (call up alice)) (Start (call up alice))
        (run_calls hexObjectId [call up alice] forum)
      = (Finished {| status := 200; body := [("message", "Upvote removed")] |},
         Finished {| status := 200; body := [("message", "Upvote removed")] |},
         db')
      ∧ db' !! 1%N
        = Some {| votes := Some []; upVotes := Some (BsonInt (-1));
                  downVotes := Some (BsonInt 0);
                  fields := {[ "title" := BsonString "Hello" ]} |}.
Proof.
  split; [vm_compute; reflexivity|].
  eexists. split; vm_compute; reflexivity.
Qed.

Lemma counters_match_votes_witness :
  ∃ p,
    run_calls hexObjectId scenario forum !! 1%N = Some p
    ∧ counter (upVotes p) = count_type "up" (votes_list p)
    ∧ counter (downVotes p) = count_type "down" (votes_list p)
    ∧ (0 ≤ counter (upVotes p))%Z
    ∧ (0 ≤ counter (downVotes p))%Z.
Proof.
  apply (counters_match_votes hexObjectId scenario forum 1%N fresh_post);
    try reflexivity; try exact I.
  repeat first [apply Forall_nil_2 | apply Forall_cons_2; [by eexists|] ].
Defined.

(** C3 fails as stated: alice has voted up; after two more upvotes she is
    in state up, not none; and after two downvotes instead, [upVotes] is 0
    where it was 1.  And from state none, where [upVotes] is the double
    [2 ^ 53], two upvotes leave [upVotes] one lower than it was. *)
Lemma castVote_twice_counterexample :
  userState voted_post (JsString alice) = Some (Voted up)
  ∧ (∃ p2,
       (castVote hexObjectId up post_id (JsString alice)
          (castVote hexObjectId up post_id (JsString alice) voted_forum).1).1
         !! 1%N = Some p2
       ∧ userState p2 (JsString alice) = Some (Voted up)
       ∧ userState p2 (JsString alice) ≠ Some NoVote)
  ∧ (∃ p2,
       (castVote hexObjectId down post_id (JsString alice)
          (castVote hexObjectId down post_id (JsString alice) voted_forum).1).1
         !! 1%N = Some p2
       ∧ upVotes voted_post = Some (BsonInt 1)
       ∧ upVotes p2 = Some (BsonInt 0))
  ∧ (∃ p2,
       (castVote hexObjectId up post_id (JsString alice)
          (castVote hexObjectId up post_id (JsString alice) full_forum).1).1
         !! 1%N = Some p2
       ∧ userState full_post (JsString alice) = Some NoVote
       ∧ upVotes full_post = Some (BsonDouble (2 ^ 53))
       ∧ upVotes p2 = Some (BsonDouble (2 ^ 53 - 1))).
Proof.
  split; [reflexivity|].
  repeat split; eexists; (split; [vm_compute; reflexivity|]); by vm_compute.
Qed.

Lemma castVote_twice_witness :
  (∃ p2,
     (castVote hexObjectId up post_id (JsString alice)
        (castVote hexObjectId up post_id (JsString alice) forum).1).1
     = <[1%N := p2]> forum
     ∧ userState p2 (JsString alice) = Some NoVote
     ∧ counter (upVotes p2) = counter (upVotes fresh_post)
     ∧ counter (downVotes p2) = counter (downVotes fresh_post))
  ∧ (∃ p2,
       (castVote hexObjectId up post_id (JsString alice)
          (castVote hexObjectId up post_id (JsString alice) voted_forum).1).1
       = <[1%N := p2]> voted_forum
       ∧ userState p2 (JsString alice) = Some (Voted up)
       ∧ counter (upVotes p2) = counter (upVotes voted_post)
       ∧ counter (downVotes p2) = counter (downVotes voted_post))
  ∧ (∃ p2,
       (castVote hexObjectId down post_id (JsString alice)
          (castVote hexObjectId down post_id (JsString alice) voted_forum).1).1
       = <[1%N := p2]> voted_forum
       ∧ userState p2 (JsString alice) = Some NoVote
       ∧ counter (upVotes p2) = (counter (upVotes voted_post) - 1)%Z
       ∧ counter (downVotes p2) = counter (downVotes voted_post)).
Proof.
  split; [|split].
  - destruct (castVote_twice hexObjectId up post_id 1%N alice forum fresh_post
                NoVote) as (p2 & E & H & _); [reflexivity..|].
    exists p2. split; [exact E|]. exact (H eq_refl).
  - destruct (castVote_twice hexObjectId up post_id 1%N alice voted_forum
                voted_post (Voted up)) as (p2 & E & _ & H & _); [reflexivity..|].
    exists p2. split; [exact E|]. exact (H eq_refl).
  - destruct (castVote_twice hexObjectId down post_id 1%N alice voted_forum
                voted_post (Voted up)) as (p2 & E & _ & _ & H & _);
      [reflexivity..|].
    exists p2. split; [exact E|]. exact (H eq_refl eq_refl).
Defined.

Lemma castVote_unknown_post_witness :
  castVote hexObjectId down other_id (JsString bob) forum
  = (forum, {| status := 404; body := [("message", "Post not found")] |}).
Proof.
  apply (castVote_unknown_post hexObjectId down other_id 2%N (JsString bob)
           forum); reflexivity.
Defined.

(** C5 fails as stated: the reply to a successful first upvote is
    [{ message: "Upvote added" }] and holds neither counter. *)
Lemma castVote_reply_counterexample :
  (castVote hexObjectId up post_id (JsString alice) forum).2
  = {| status := 200; body := [("message", "Upvote added")] |}
  ∧ field "upVotes" (body (castVote hexObjectId up post_id (JsString alice) forum).2)
    = None
  ∧ field "downVotes" (body (castVote hexObjectId up post_id (JsString alice) forum).2)
    = None.
Proof. by vm_compute. Qed.

(** At the largest int64 the store refuses the [$inc], the handler's
    [catch] answers 500, and nothing is written. *)
Example castVote_int64_limit :
  castVote hexObjectId up post_id (JsString alice) {[ 1%N := last_post ]}
  = ({[ 1%N := last_post ]},
     {| status := 500; body := [("message", "Internal server error")] |}).
Proof. vm_compute. reflexivity. Qed.

Lemma castVote_reply_witness :
  (fits (upVotes voted_post) → fits (downVotes voted_post) →
     (castVote hexObjectId down post_id (JsString alice) voted_forum).2
     = {| status := 200; body := [("message", "Vote switched to downvote")] |})
  ∧ (status (castVote hexObjectId down post_id (JsString alice) voted_forum).2
     = 200 →
     (castVote hexObjectId down post_id (JsString alice) voted_forum).2
     = {| status := 200; body := [("message", "Vote switched to downvote")] |})
  ∧ field "upVotes"
      (body (castVote hexObjectId down post_id (JsString alice) voted_forum).2)
    = None
  ∧ field "downVotes"
      (body (castVote hexObjectId down post_id (JsString alice) voted_forum).2)
    = None.
Proof.
  apply (castVote_reply hexObjectId down post_id 1%N alice voted_forum
           voted_post (Voted up)); reflexivity.
Defined.

(** C6 fails as stated: a malformed id is answered with 500, which is not
    a 4xx status; and a body without [userEmail] is answered with 200
    while a record is appended and [upVotes] raised, or, where [upVotes]
    is the double [2 ^ 53], left as it was. *)
Lemma castVote_invalid_input_counterexample :
  (status (castVote hexObjectId up malformed_id (JsString alice) forum).2 = 500
   ∧ ¬ (400 ≤ status (castVote hexObjectId up malformed_id (JsString alice) forum).2
        < 500))
  ∧ (status (castVote hexObjectId up post_id JsUndefined forum).2 = 200
     ∧ forum !! 1%N = Some fresh_post
     ∧ (castVote hexObjectId up post_id JsUndefined forum).1 !! 1%N
       = Some {| votes := Some [{| userEmail := BsonNull; voteType := "up" |}];
                 upVotes := Some (BsonInt 1); downVotes := Some (BsonInt 0);
                 fields := {[ "title" := BsonString "Hello" ]} |})
  ∧ (status (castVote hexObjectId up post_id JsUndefined full_forum).2 = 200
     ∧ (castVote hexObjectId up post_id JsUndefined full_forum).1 !! 1%N
       = Some {| votes := Some [{| userEmail := BsonNull; voteType := "up" |}];
                 upVotes := Some (BsonDouble (2 ^ 53));
                 downVotes := Some (BsonInt 0);
                 fields := {[ "title" := BsonString "Hello" ]} |}).
Proof.
  split; [|split].
  - split; [reflexivity|]. vm_compute. lia.
  - split; [reflexivity|]. split; reflexivity.
  - split; [reflexivity|]. vm_compute. reflexivity.
Qed.

Lemma castVote_invalid_input_witness :
  castVote hexObjectId up malformed_id (JsString alice) forum
  = (forum, {| status := 500; body := [("message", "Internal server error")] |})
  ∧ ∃ p',
      castVote hexObjectId down post_id JsUndefined forum
      = (<[1%N := p']> forum,
         {| status := 200; body := [("message", "Downvote added")] |})
      ∧ votes_list p' = [{| userEmail := BsonNull; voteType := "down" |}]
      ∧ counter (upVotes p') = (0 + 0)%Z
      ∧ counter (downVotes p') = (0 + 1)%Z.
Proof.
  split.
  - apply (proj1 (castVote_invalid_input hexObjectId up malformed_id forum)).
    reflexivity.
  - apply (proj2 (castVote_invalid_input hexObjectId down post_id forum)
             1%N fresh_post); reflexivity.
Defined.




(** C9 fails as stated: [upVotes] is the double [2 ^ 53]; the first
    upvotes of alice and of bob, in flight together, are both answered
    "Upvote added", both records are appended, and [upVotes] is what it
    was, not two more. *)
Lemma concurrent_votes_distinct_users_counterexample :
  ∃ db',
    run_schedule hexObjectId [true; false; true; false]
      (Start (call up alice)) (Start (call up bob)) full_forum
    = (Finished {| status := 200; body := [("message", "Upvote added")] |},
       Finished {| status := 200; body := [("message", "Upvote added")] |},
       db')
    ∧ db' !! 1%N
      = Some {| votes := Some [{| userEmail := BsonString alice;
                                  voteType := "up" |};
                               {| userEmail := BsonString bob;
                                  voteType := "up" |}];
                upVotes := Some (BsonDouble (2 ^ 53));
                downVotes := Some (BsonInt 0);
                fields := {[ "title" := BsonString "Hello" ]} |}
    ∧ upVotes full_post = Some (BsonDouble (2 ^ 53)).
Proof. eexists. repeat split; vm_compute; reflexivity. Qed.

Lemma concurrent_votes_distinct_users_witness :
  ∃ r1 r2 db' p',
    run_schedule hexObjectId [true; false; false; true]
      (Start (call down alice)) (Start (call up bob)) voted_forum
    = (Finished r1, Finished r2, db')
    ∧ status r1 = 200
    ∧ status r2 = 200
    ∧ db' !! 1%N = Some p'
    ∧ counter (upVotes p') = (1 + -1 + 1)%Z
    ∧ counter (downVotes p') = (0 + 1 + 0)%Z.
Proof.
  apply (concurrent_votes_distinct_users hexObjectId [true; false; false; true]
           (call down alice) (call up bob) alice bob voted_forum 1%N voted_post
           (Voted up) NoVote);
    try reflexivity.
  - discriminate.
  - apply (bool_decide_unpack _). vm_compute. exact I.
Defined.

(** C10 fails as stated: the post has no [votes] field and [upVotes] is
    the double [2 ^ 53]; an upvote creates the array with alice's record
    and leaves [upVotes] as it was. *)
Lemma castVote_without_votes_field_counterexample :
  castVote hexObjectId up post_id (JsString alice) full_bare_forum
  = (<[1%N := {| votes := Some [{| userEmail := BsonString alice;
                                   voteType := "up" |}];
                 upVotes := Some (BsonDouble (2 ^ 53));
                 downVotes := Some (BsonInt 0);
                 fields := {[ "title" := BsonString "Hello" ]} |}]>
       full_bare_forum,
     {| status := 200; body := [("message", "Upvote added")] |})
  ∧ upVotes full_bare_post = Some (BsonDouble (2 ^ 53)).
Proof. split; [vm_compute; reflexivity|reflexivity]. Qed.

Lemma castVote_without_votes_field_witness :
  ∃ p',
    castVote hexObjectId up post_id (JsString alice) bare_forum
    = (<[1%N := p']> bare_forum,
       {| status := 200; body := [("message", "Upvote added")] |})
    ∧ votes p' = Some [{| userEmail := BsonString alice; voteType := "up" |}]
    ∧ (counter (upVotes p') = (0 + 1)%Z
       ∧ is_Some (upVotes p')
       ∧ downVotes p' = Some (BsonInt 0))
    ∧ fields p' = fields bare_post.
Proof.
  apply (castVote_without_votes_field hexObjectId up post_id 1%N
           (JsString alice) bare_forum bare_post); reflexivity.
Defined.

Example sort_by_popularity_example :
  view_id <$> (sort_by_popularity
                 (<[2%N := voted_post]> (<[3%N := bare_post]> forum))).2
  = [2%N; 1%N; 3%N]
  ∨ view_id <$> (sort_by_popularity
                   (<[2%N := voted_post]> (<[3%N := bare_post]> forum))).2
    = [2%N; 3%N; 1%N].
Proof. vm_compute. auto. Qed.

(** * Worked examples for the further properties *)

Example recent_search_terms_sample :
  recent_search_terms sample_searches
  = [ {| _id := BsonString "lean"; count := 2; latestCreatedAt := 6 |};
      {| _id := BsonString "rocq"; count := 2; latestCreatedAt := 3 |};
      {| _id := BsonString "isabelle"; count := 1; latestCreatedAt := 5 |} ].
Proof. vm_compute. reflexivity. Qed.

Lemma castVote_other_users_witness :
  ∃ p',
    (castVote hexObjectId down post_id (JsString bob) voted_forum).1 !! 1%N
    = Some p'
    ∧ existingVote p' (JsString alice) = existingVote voted_post (JsString alice).
Proof.
  apply (castVote_other_users hexObjectId down post_id (JsString bob)
           (JsString alice) voted_forum 1%N voted_post);
    [reflexivity | discriminate].
Defined.


Lemma castVote_three_times_witness :
  ∃ p1 p3,
    (castVote hexObjectId up post_id (JsString alice) forum).1
    = <[1%N := p1]> forum
    ∧ (castVote hexObjectId up post_id (JsString alice)
         (castVote hexObjectId up post_id (JsString alice)
            (castVote hexObjectId up post_id (JsString alice) forum).1).1).1
      = <[1%N := p3]> forum
    ∧ userState p3 (JsString alice) = userState p1 (JsString alice)
    ∧ counter (upVotes p3) = counter (upVotes p1)
    ∧ counter (downVotes p3) = counter (downVotes p1).
Proof.
  apply (castVote_three_times hexObjectId up post_id 1%N alice forum
           fresh_post NoVote); reflexivity.
Defined.





Lemma castVote_commute_posts_witness :
  (castVote hexObjectId down other_id (JsString bob)
     (castVote hexObjectId up post_id (JsString alice)
        (<[2%N := voted_post]> forum)).1).1
  = (castVote hexObjectId up post_id (JsString alice)
       (castVote hexObjectId down other_id (JsString bob)
          (<[2%N := voted_post]> forum)).1).1
  ∧ (castVote hexObjectId down other_id (JsString bob)
       (castVote hexObjectId up post_id (JsString alice)
          (<[2%N := voted_post]> forum)).1).2
    = (castVote hexObjectId down other_id (JsString bob)
         (<[2%N := voted_post]> forum)).2
  ∧ (castVote hexObjectId up post_id (JsString alice)
       (castVote hexObjectId down other_id (JsString bob)
          (<[2%N := voted_post]> forum)).1).2
    = (castVote hexObjectId up post_id (JsString alice)
         (<[2%N := voted_post]> forum)).2.
Proof.
  apply (castVote_commute_posts hexObjectId up post_id (JsString alice) down
           other_id (JsString bob) 1%N 2%N (<[2%N := voted_post]> forum));
    [reflexivity | reflexivity | discriminate].
Defined.

Lemma delete_post_then_castVote_witness :
  castVote hexObjectId up post_id (JsString alice)
    (delete_post hexObjectId post_id voted_forum).1
  = (delete 1%N voted_forum,
     {| status := 404; body := [("message", "Post not found")] |})
  ∧ (delete_post hexObjectId post_id voted_forum).2
    = {| reply_status := 200; reply_body := [("success", JsonBool true)] |}.
Proof.
  apply (delete_post_then_castVote hexObjectId up post_id post_id 1%N
           (JsString alice) voted_forum); reflexivity.
Defined.

Lemma delete_post_listing_witness :
  addFields_votesCount (1%N, fresh_post)
    ∈ (sort_by_popularity
         (delete_post hexObjectId other_id (<[2%N := voted_post]> forum)).1).2
  ↔ addFields_votesCount (1%N, fresh_post)
      ∈ (sort_by_popularity (<[2%N := voted_post]> forum)).2
    ∧ view_id (addFields_votesCount (1%N, fresh_post)) ≠ 2%N.
Proof.
  apply (delete_post_listing hexObjectId other_id 2%N
           (<[2%N := voted_post]> forum)
           (addFields_votesCount (1%N, fresh_post))).
  reflexivity.
Defined.

Lemma users_emails_unique_witness :
  NoDup (user_email
           <$> run_user_requests
                 [NewUser mallory_body; NewUser alice_user;
                  MakeAdmin (JsString alice); UpdateBadge (JsString alice);
                  NewUserAsUser mallory_body]
                 sample_users).
Proof.
  apply (users_emails_unique
           [NewUser mallory_body; NewUser alice_user;
            MakeAdmin (JsString alice); UpdateBadge (JsString alice);
            NewUserAsUser mallory_body]
           sample_users).
  apply (bool_decide_unpack _). vm_compute. exact I.
Defined.

Lemma new_user_twice_witness :
  new_user alice_user (new_user mallory_body sample_users).1
  = ((new_user mallory_body sample_users).1, success)
  ∧ new_user (set_role "admin" mallory_body)
      (new_user mallory_body sample_users).1
    = ((new_user mallory_body sample_users).1, success).
Proof.
  split.
  - reflexivity.
  - apply (new_user_twice mallory_body (set_role "admin" mallory_body)
             sample_users). reflexivity.
Defined.

Lemma make_admin_twice_witness :
  (make_admin (JsString alice) (make_admin (JsString alice) sample_users).1).1
  = sample_users.
Proof.
  apply (make_admin_twice (JsString alice) sample_users alice_user);
    [reflexivity | by right].
Defined.

Lemma make_admin_toggles_access_witness :
  (verifyAdmin (JsString alice) (make_admin (JsString alice) sample_users).1
   = Next
   ↔ verifyAdmin (JsString alice) sample_users ≠ Next)
  ∧ ∀ e', serialize e' ≠ serialize (JsString alice) →
      users_findOne e' (make_admin (JsString alice) sample_users).1
      = users_findOne e' sample_users
      ∧ verifyAdmin e' (make_admin (JsString alice) sample_users).1
        = verifyAdmin e' sample_users.
Proof.
  apply (make_admin_toggles_access (JsString alice) sample_users alice_user).
  reflexivity.
Defined.

Lemma new_user_role_from_body_witness :
  users_findOne (JsString "mallory@forum.hub")
    (new_user mallory_body sample_users).1
  = Some mallory_body
  ∧ verifyAdmin (JsString "mallory@forum.hub")
      (new_user mallory_body sample_users).1
    = Next.
Proof.
  apply (new_user_role_from_body (JsString "mallory@forum.hub") mallory_body
           sample_users); reflexivity.
Defined.

Lemma new_user_as_user_role_witness :
  (users_findOne (JsString "mallory@forum.hub") sample_users = None →
     users_findOne (JsString "mallory@forum.hub")
       (new_user_as_user mallory_body sample_users).1
     = Some (set_role "user" mallory_body))
  ∧ (∀ e', users_findOne e' sample_users ≠ None →
       users_findOne e' (new_user_as_user mallory_body sample_users).1
       = users_findOne e' sample_users).
Proof.
  apply (new_user_as_user_role (JsString "mallory@forum.hub") mallory_body
           sample_users). reflexivity.
Defined.

Lemma recent_search_terms_counts_witness :
  count {| _id := BsonString "lean"; count := 2; latestCreatedAt := 6 |}
  = times_searched (BsonString "lean") sample_searches
  ∧ 1 ≤ 2
  ∧ (∃ d, d ∈ sample_searches ∧ searchTerm d = BsonString "lean"
          ∧ createdAt d = 6%Z)
  ∧ (∀ d, d ∈ sample_searches → searchTerm d = BsonString "lean" →
       (createdAt d ≤ 6)%Z).
Proof.
  apply (recent_search_terms_counts sample_searches
           {| _id := BsonString "lean"; count := 2; latestCreatedAt := 6 |}).
  vm_compute. apply list_elem_of_here.
Defined.

Lemma search_term_counted_witness :
  count {| _id := BsonString "lean"; count := 3; latestCreatedAt := 7 |}
  = times_searched (BsonString "lean") sample_searches
    + (if bool_decide (BsonString "lean" = BsonString "lean") then 1 else 0)
  ∧ (BsonString "lean" = BsonString "lean" → (7 ≤ 7)%Z).
Proof.
  apply (search_term_counted (BsonString "lean") 7 sample_searches
           {| _id := BsonString "lean"; count := 3; latestCreatedAt := 7 |}).
  vm_compute. apply list_elem_of_here.
Defined.

Lemma make_admin_route_guard_witness :
  ∃ tok verified caller,
    Some "root-token" = Some tok
    ∧ tok ≠ ""
    ∧ sample_jwt_verify tok = Some verified
    ∧ users_findOne (payload_email verified) sample_users = Some caller
    ∧ role caller = Some "admin".
Proof.
  apply (make_admin_route_guard sample_jwt_verify (Some "root-token")
           (JsString alice) sample_users).
  intros H. vm_compute in H. discriminate H.
Defined.

Lemma make_admin_self_demotion_witness :
  (make_admin_route sample_jwt_verify (Some "root-token")
     (JsString "root@forum.hub") sample_users).2
  = Served success
  ∧ make_admin_route sample_jwt_verify (Some "root-token") (JsString alice)
      (make_admin_route sample_jwt_verify (Some "root-token")
         (JsString "root@forum.hub") sample_users).1
    = ((make_admin_route sample_jwt_verify (Some "root-token")
          (JsString "root@forum.hub") sample_users).1,
       Refused (status_send 401
                  [("message", "Access Denied! unauthorized user")])).
Proof.
  apply (make_admin_self_demotion sample_jwt_verify "root-token"
           {| payload_email := JsString "root@forum.hub" |} root_user
           (JsString alice) sample_users);
    [discriminate | reflexivity | reflexivity | reflexivity].
Defined.

Lemma report_comment_listing_witness :
  ((10%N, set_feedbacks (serialize JsUndefined)
            {| postId := 1%N; comment_createdAt := 100;
               feedbacks := None; comment_fields := ∅ |})
     ∈ all_reported_comments
         (report_comment hexObjectId comment_id JsUndefined sample_comments).1
   ↔ JsUndefined ≠ JsString "")
  ∧ ∀ d, d.1 ≠ 10%N →
      (d ∈ all_reported_comments
             (report_comment hexObjectId comment_id JsUndefined
                sample_comments).1
       ↔ d ∈ all_reported_comments sample_comments).
Proof.
  apply (report_comment_listing hexObjectId comment_id 10%N JsUndefined
           sample_comments
           {| postId := 1%N; comment_createdAt := 100;
              feedbacks := None; comment_fields := ∅ |});
    reflexivity.
Defined.

Lemma resolve_comment_listing_witness :
  ((11%N, {| postId := 1%N; comment_createdAt := 200;
             feedbacks := Some (BsonString "spam"); comment_fields := ∅ |})
     ∈ all_reported_comments
         (resolve_comment hexObjectId comment_id sample_comments).1
   ↔ (11%N, {| postId := 1%N; comment_createdAt := 200;
               feedbacks := Some (BsonString "spam"); comment_fields := ∅ |})
       ∈ all_reported_comments sample_comments
     ∧ 11%N ≠ 10%N)
  ∧ ((11%N, {| postId := 1%N; comment_createdAt := 200;
               feedbacks := Some (BsonString "spam"); comment_fields := ∅ |})
       ∈ all_reported_comments
           (delete_comment hexObjectId comment_id sample_comments).1
     ↔ (11%N, {| postId := 1%N; comment_createdAt := 200;
                 feedbacks := Some (BsonString "spam"); comment_fields := ∅ |})
         ∈ all_reported_comments sample_comments
       ∧ 11%N ≠ 10%N).
Proof.
  apply (resolve_comment_listing hexObjectId comment_id 10%N sample_comments
           (11%N, {| postId := 1%N; comment_createdAt := 200;
                     feedbacks := Some (BsonString "spam");
                     comment_fields := ∅ |})).
  reflexivity.
Defined.

Example post_comments_sample :
  (fun l : list (ObjectId * Comment) => l.*1)
    <$> post_comments hexObjectId post_id sample_comments
  = Some [11%N; 10%N]
  ∧ post_comments hexObjectId malformed_id sample_comments = None.
Proof. split; vm_compute; reflexivity. Qed.
